(** * KVideo: desktop fullscreen controls and the desktop speed menu

    A shallow embedding of
    [src/components/player/hooks/desktop/useFullscreenControls.ts]:
    the hook [useFullscreenControls] (capability probe, [toggleFullscreen],
    the passive fullscreen-change subscription, [togglePictureInPicture],
    [showAirPlayMenu]) and the component [DesktopSpeedMenu].

    The host (browser) is a record of what it exposes and of how each exposed
    method behaves when called.  The code runs in a small state-and-exception
    monad whose state holds the shell's React state, the document's listener
    registry and a chronological log of every observable effect. *)

From Stdlib Require Import List String Bool Arith Lia ZArith QArith.
From Stdlib Require Import SetoidList.
From Stdlib Require PrimFloat.
Import ListNotations.
Local Close Scope Q_scope.
Local Open Scope string_scope.
Local Open Scope list_scope.

Set Implicit Arguments.

(** ** The host environment *)

(** How a host method behaves when it is called: it returns (for a method
    that yields a promise, the promise resolves), it throws synchronously,
    or it returns a promise that rejects. *)
Inductive outcome : Type :=
| Returns
| Throws
| Rejects.

(** A DOM element, as far as the code looks at it: an object, hence truthy. *)
Inductive Element : Type :=
| element (id : nat).

(** [containerRef.current]: the four request methods are read through
    [as any] and tested for existence, so each one is optional. *)
Record Container : Type := {
  requestFullscreen : option outcome;
  webkitRequestFullscreen : option outcome;
  mozRequestFullScreen : option outcome;
  msRequestFullscreen : option outcome
}.

(** [videoRef.current].  [requestPictureInPicture] is called without an
    existence test (it is part of the declared type of the element). *)
Record Video : Type := {
  webkitEnterFullscreen : option outcome;
  requestPictureInPicture : outcome;
  webkitShowPlaybackTargetPicker : option outcome
}.

(** [window.screen.orientation] *)
Record Orientation : Type := {
  lock : option outcome;
  unlock : option outcome
}.

(** [window.screen] *)
Record Screen : Type := {
  orientation : option Orientation
}.

(** [window]; the boolean is ['WebKitPlaybackTargetAvailabilityEvent' in window]. *)
Record Window : Type := {
  screen : option Screen;
  has_WebKitPlaybackTargetAvailabilityEvent : bool
}.

(** [document]; the boolean is ['pictureInPictureEnabled' in document]. *)
Record Document : Type := {
  has_pictureInPictureEnabled : bool;
  exitFullscreen : option outcome;
  webkitExitFullscreen : option outcome;
  mozCancelFullScreen : option outcome;
  msExitFullscreen : option outcome;
  fullscreenElement : option Element;
  webkitFullscreenElement : option Element;
  mozFullScreenElement : option Element;
  msFullscreenElement : option Element;
  pictureInPictureElement : option Element;
  exitPictureInPicture : outcome
}.

(** The globals and the two refs.  [None] for a global is
    [typeof g === 'undefined']; [None] for a ref is [ref.current === null]. *)
Record Env : Type := {
  document : option Document;
  window : option Window;
  containerRef : option Container;
  videoRef : option Video
}.

(** ** Observable effects *)

(** The browser methods the hook can invoke. *)
Inductive method : Type :=
| M_requestFullscreen
| M_webkitRequestFullscreen
| M_mozRequestFullScreen
| M_msRequestFullscreen
| M_webkitEnterFullscreen
| M_exitFullscreen
| M_webkitExitFullscreen
| M_mozCancelFullScreen
| M_msExitFullscreen
| M_orientation_lock (arg : string)
| M_orientation_unlock
| M_exitPictureInPicture
| M_requestPictureInPicture
| M_webkitShowPlaybackTargetPicker.

Inductive level : Type :=
| Warn
| Error.

(** The identity of a listener function (a closure allocated by an effect). *)
Definition handler_id : Type := nat.

Inductive event : Type :=
| Call (m : method)
| Unhandled (m : method)
| Console (l : level) (msg : string)
| SetIsFullscreen (b : bool)
| SetIsPiPSupported (b : bool)
| SetIsAirPlaySupported (b : bool)
| AddEventListener (type : string) (h : handler_id)
| RemoveEventListener (type : string) (h : handler_id).

(** What a [throw] or a rejected [await] carries. *)
Inductive exn : Type :=
| ReferenceError (name : string)
| HostError (m : method).

(** ** State *)

(** The shell's React state and the document's listener registry.
    [next_handler] is the allocator of listener identities: every run of the
    subscription effect creates a new closure. *)
Record State : Type := {
  isFullscreen : bool;
  isPiPSupported : bool;
  isAirPlaySupported : bool;
  listeners : list (string * handler_id);
  next_handler : handler_id
}.

Definition initial_state : State :=
  {| isFullscreen := false; isPiPSupported := false;
     isAirPlaySupported := false; listeners := [];
     next_handler := 0 |}.

Definition with_isFullscreen (b : bool) (s : State) : State :=
  {| isFullscreen := b; isPiPSupported := isPiPSupported s;
     isAirPlaySupported := isAirPlaySupported s; listeners := listeners s;
     next_handler := next_handler s |}.

Definition with_isPiPSupported (b : bool) (s : State) : State :=
  {| isFullscreen := isFullscreen s; isPiPSupported := b;
     isAirPlaySupported := isAirPlaySupported s; listeners := listeners s;
     next_handler := next_handler s |}.

Definition with_isAirPlaySupported (b : bool) (s : State) : State :=
  {| isFullscreen := isFullscreen s; isPiPSupported := isPiPSupported s;
     isAirPlaySupported := b; listeners := listeners s;
     next_handler := next_handler s |}.

Definition with_listeners (l : list (string * handler_id)) (s : State) : State :=
  {| isFullscreen := isFullscreen s; isPiPSupported := isPiPSupported s;
     isAirPlaySupported := isAirPlaySupported s; listeners := l;
     next_handler := next_handler s |}.

Definition with_next_handler (n : handler_id) (s : State) : State :=
  {| isFullscreen := isFullscreen s; isPiPSupported := isPiPSupported s;
     isAirPlaySupported := isAirPlaySupported s; listeners := listeners s;
     next_handler := n |}.

(** ** The monad: state, exceptions and a chronological log of effects.
    The state and the log survive a throw. *)

Inductive result (A : Type) : Type :=
| Ok (a : A)
| Thrown (e : exn).
Arguments Thrown {A} e.

Record Run (A : Type) : Type := mkRun {
  res : result A;
  post : State;
  events : list event
}.

Unset Implicit Arguments.

Definition M (A : Type) : Type := State -> Run A.

Definition ret {A} (a : A) : M A := fun s => mkRun (Ok a) s [].

Definition throw {A} (e : exn) : M A := fun s => mkRun (Thrown e) s [].

Definition after {A} (t : list event) (r : Run A) : Run A :=
  mkRun (res r) (post r) (t ++ events r).

Definition bind {A B} (m : M A) (k : A -> M B) : M B :=
  fun s => match res (m s) with
           | Ok a => after (events (m s)) (k a (post (m s)))
           | Thrown e => mkRun (Thrown e) (post (m s)) (events (m s))
           end.

(** [try { body } catch (x) { handler x }] *)
Definition try_catch {A} (body : M A) (handler : exn -> M A) : M A :=
  fun s => match res (body s) with
           | Ok a => body s
           | Thrown e => after (events (body s)) (handler e (post (body s)))
           end.

Declare Scope js_scope.
Delimit Scope js_scope with js.
Notation "x <- m ;; k" := (bind m (fun x => k))
  (at level 61, m at next level, right associativity) : js_scope.
Notation "m ;; k" := (bind m (fun _ => k))
  (at level 61, right associativity) : js_scope.
Local Open Scope js_scope.

Definition emit (ev : event) : M unit := fun s => mkRun (Ok tt) s [ev].

Definition skip : M unit := ret tt.

(** [await obj.m()]: a synchronous throw and a rejection both surface as an
    exception at the [await]. *)
Definition call_await (m : method) (o : outcome) : M unit :=
  emit (Call m) ;;
  match o with
  | Returns => skip
  | Throws | Rejects => throw (HostError m)
  end.

(** [obj.m()] with the result dropped: a rejected promise is nobody's
    exception, it is only reported by the host as unhandled. *)
Definition call_sync (m : method) (o : outcome) : M unit :=
  emit (Call m) ;;
  match o with
  | Returns => skip
  | Throws => throw (HostError m)
  | Rejects => emit (Unhandled m)
  end.

(** [obj.m().catch(() => { })]: the rejection is swallowed, a synchronous
    throw is not. *)
Definition call_catch (m : method) (o : outcome) : M unit :=
  emit (Call m) ;;
  match o with
  | Returns | Rejects => skip
  | Throws => throw (HostError m)
  end.

Definition console_warn (msg : string) : M unit := emit (Console Warn msg).
Definition console_error (msg : string) : M unit := emit (Console Error msg).

(** Reading a global that may be undeclared. *)
Definition global_document (e : Env) : M Document :=
  match document e with
  | Some d => ret d
  | None => throw (ReferenceError "document")
  end.

Definition global_window (e : Env) : M Window :=
  match window e with
  | Some w => ret w
  | None => throw (ReferenceError "window")
  end.

(** The shell's mutators. *)
Definition setIsFullscreen (b : bool) : M unit :=
  fun s => mkRun (Ok tt) (with_isFullscreen b s) [SetIsFullscreen b].

Definition setIsPiPSupported (b : bool) : M unit :=
  fun s => mkRun (Ok tt) (with_isPiPSupported b s) [SetIsPiPSupported b].

Definition setIsAirPlaySupported (b : bool) : M unit :=
  fun s => mkRun (Ok tt) (with_isAirPlaySupported b s) [SetIsAirPlaySupported b].

Definition read_isFullscreen : M bool := fun s => mkRun (Ok (isFullscreen s)) s [].
Definition read_isPiPSupported : M bool := fun s => mkRun (Ok (isPiPSupported s)) s [].
Definition read_isAirPlaySupported : M bool :=
  fun s => mkRun (Ok (isAirPlaySupported s)) s [].

(** ** The hook *)

(** Lines 24-31: the capability probe. *)
Definition probe (e : Env) : M unit :=
  match document e with
  | Some d => setIsPiPSupported (has_pictureInPictureEnabled d)
  | None => skip
  end ;;
  match window e with
  | Some w => setIsAirPlaySupported (has_WebKitPlaybackTargetAvailabilityEvent w)
  | None => skip
  end.

(** Lines 38-49: the entry chain. *)
Definition entry_chain (c : Container) (e : Env) : M unit :=
  match requestFullscreen c with
  | Some o => call_await M_requestFullscreen o
  | None =>
    match webkitRequestFullscreen c with
    | Some o => call_await M_webkitRequestFullscreen o
    | None =>
      match mozRequestFullScreen c with
      | Some o => call_await M_mozRequestFullScreen o
      | None =>
        match msRequestFullscreen c with
        | Some o => call_await M_msRequestFullscreen o
        | None =>
          match videoRef e with
          | Some v =>
            match webkitEnterFullscreen v with
            | Some o => call_sync M_webkitEnterFullscreen o
            | None => skip
            end
          | None => skip
          end
        end
      end
    end
  end.

(** Lines 52-58: the landscape lock after the entry chain. *)
Definition lock_orientation (e : Env) : M unit :=
  w <- global_window e ;;
  match screen w with
  | Some sc =>
    match orientation sc with
    | Some ori =>
      match lock ori with
      | Some o =>
        try_catch (call_await (M_orientation_lock "landscape") o)
                  (fun _ => console_warn "Orientation lock failed:")
      | None => skip
      end
    | None => skip
    end
  | None => skip
  end.

(** Lines 59-69: the handler of the entering branch's outer [catch]. *)
Definition entry_fallback (e : Env) : M unit :=
  console_warn "Fullscreen request failed, trying fallback:" ;;
  match videoRef e with
  | Some v =>
    match webkitEnterFullscreen v with
    | Some o =>
      try_catch (call_sync M_webkitEnterFullscreen o)
                (fun _ => console_error "Final fullscreen fallback failed:")
    | None => skip
    end
  | None => skip
  end.

(** Lines 72-80: the exit chain. *)
Definition exit_chain (e : Env) : M unit :=
  d <- global_document e ;;
  match exitFullscreen d with
  | Some o => call_await M_exitFullscreen o
  | None =>
    match webkitExitFullscreen d with
    | Some o => call_await M_webkitExitFullscreen o
    | None =>
      match mozCancelFullScreen d with
      | Some o => call_await M_mozCancelFullScreen o
      | None =>
        match msExitFullscreen d with
        | Some o => call_await M_msExitFullscreen o
        | None => skip
        end
      end
    end
  end.

(** Lines 83-89: the unlock after the exit chain (not awaited). *)
Definition unlock_orientation (e : Env) : M unit :=
  w <- global_window e ;;
  match screen w with
  | Some sc =>
    match orientation sc with
    | Some ori =>
      match unlock ori with
      | Some o =>
        try_catch (call_sync M_orientation_unlock o)
                  (fun _ => console_warn "Orientation unlock failed:")
      | None => skip
      end
    | None => skip
    end
  | None => skip
  end.

(** Lines 33-94. *)
Definition toggleFullscreen (e : Env) : M unit :=
  match containerRef e with
  | None => skip
  | Some c =>
    fs <- read_isFullscreen ;;
    if negb fs then
      try_catch (entry_chain c e ;; lock_orientation e)
                (fun _ => entry_fallback e)
    else
      try_catch (exit_chain e ;; unlock_orientation e)
                (fun _ => console_error "Failed to exit fullscreen:")
  end.

(** Lines 98-103: [a || b] yields its first truthy operand, [!!x] its
    truthiness; an element is truthy, [null]/[undefined] is not. *)
Definition js_or (a b : option Element) : option Element :=
  match a with
  | Some x => Some x
  | None => b
  end.

Definition truthy (a : option Element) : bool :=
  match a with
  | Some _ => true
  | None => false
  end.

Definition isInFullscreen (d : Document) : bool :=
  truthy (js_or (js_or (js_or (fullscreenElement d) (webkitFullscreenElement d))
                       (mozFullScreenElement d))
                (msFullscreenElement d)).

(** Lines 106-117: the second look at the orientation lock. *)
Definition recheck_orientation (e : Env) (inFullscreen : bool) : M unit :=
  if inFullscreen then
    w <- global_window e ;;
    match screen w with
    | Some sc =>
      match orientation sc with
      | Some ori =>
        match lock ori with
        | Some o => call_catch (M_orientation_lock "landscape") o
        | None => skip
        end
      | None => skip
      end
    | None => skip
    end
  else
    w <- global_window e ;;
    match screen w with
    | Some sc =>
      match orientation sc with
      | Some ori =>
        match unlock ori with
        | Some o => try_catch (call_sync M_orientation_unlock o) (fun _ => skip)
        | None => skip
        end
      | None => skip
      end
    | None => skip
    end.

(** Lines 97-118: the passive fullscreen-change handler. *)
Definition handleFullscreenChange (e : Env) : M unit :=
  d <- global_document e ;;
  setIsFullscreen (isInFullscreen d) ;;
  recheck_orientation e (isInFullscreen d).

(** [document.addEventListener(type, h)]: a listener already registered for
    the same type is not registered twice. *)
Definition same_listener (type : string) (h : handler_id)
           (l : string * handler_id) : bool :=
  String.eqb (fst l) type && Nat.eqb (snd l) h.

Definition addEventListener (type : string) (h : handler_id) : M unit :=
  fun s =>
    mkRun (Ok tt)
          (if existsb (same_listener type h) (listeners s) then s
           else with_listeners (listeners s ++ [(type, h)]) s)
          [AddEventListener type h].

(** [document.removeEventListener(type, h)] *)
Definition removeEventListener (type : string) (h : handler_id) : M unit :=
  fun s =>
    mkRun (Ok tt)
          (with_listeners
             (filter (fun l => negb (same_listener type h l)) (listeners s)) s)
          [RemoveEventListener type h].

(** The closure [handleFullscreenChange] created by one run of the effect. *)
Definition new_handler : M handler_id :=
  fun s => mkRun (Ok (next_handler s)) (with_next_handler (S (next_handler s)) s) [].

(** The four event names of lines 120-123 and 126-129. *)
Definition fullscreen_change_events : list string :=
  ["fullscreenchange"; "webkitfullscreenchange"; "mozfullscreenchange";
   "MSFullscreenChange"].

(** Lines 96-124: the body of the subscription effect.  It returns the
    handler, which is what the cleanup closes over. *)
Definition subscribe (e : Env) : M handler_id :=
  h <- new_handler ;;
  _ <- global_document e ;;
  addEventListener "fullscreenchange" h ;;
  addEventListener "webkitfullscreenchange" h ;;
  addEventListener "mozfullscreenchange" h ;;
  addEventListener "MSFullscreenChange" h ;;
  ret h.

(** Lines 125-130: the cleanup returned by the effect. *)
Definition cleanup (e : Env) (h : handler_id) : M unit :=
  _ <- global_document e ;;
  removeEventListener "fullscreenchange" h ;;
  removeEventListener "webkitfullscreenchange" h ;;
  removeEventListener "mozfullscreenchange" h ;;
  removeEventListener "MSFullscreenChange" h.

(** Lines 133-144. *)
Definition togglePictureInPicture (e : Env) : M unit :=
  match videoRef e with
  | None => skip
  | Some v =>
    pip <- read_isPiPSupported ;;
    if negb pip then skip
    else
      try_catch
        (d <- global_document e ;;
         match pictureInPictureElement d with
         | Some _ => call_await M_exitPictureInPicture (exitPictureInPicture d)
         | None => call_await M_requestPictureInPicture (requestPictureInPicture v)
         end)
        (fun _ => console_error "Failed to toggle Picture-in-Picture:")
  end.

(** Lines 146-152. *)
Definition showAirPlayMenu (e : Env) : M unit :=
  match videoRef e with
  | None => skip
  | Some v =>
    air <- read_isAirPlaySupported ;;
    if negb air then skip
    else
      match webkitShowPlaybackTargetPicker v with
      | Some o => call_sync M_webkitShowPlaybackTargetPicker o
      | None => skip
      end
  end.

(** ** The life of the hook inside a mounted component *)

(** What can happen between activation and deactivation: the three commands,
    a fullscreen-change event reaching the registered handler, and a re-run
    of the subscription effect (its dependency changed: cleanup, then the
    body again with a new closure). *)
Inductive action : Type :=
| A_toggleFullscreen
| A_togglePictureInPicture
| A_showAirPlayMenu
| A_fullscreenChange
| A_resubscribe.

(** One action, given the currently subscribed handler; it yields the handler
    subscribed afterwards.  An exception escaping a callback is reported by
    the host's event loop and goes no further. *)
Definition run_action (e : Env) (h : handler_id) (a : action) : M handler_id :=
  match a with
  | A_toggleFullscreen =>
    try_catch (toggleFullscreen e) (fun _ => skip) ;; ret h
  | A_togglePictureInPicture =>
    try_catch (togglePictureInPicture e) (fun _ => skip) ;; ret h
  | A_showAirPlayMenu =>
    try_catch (showAirPlayMenu e) (fun _ => skip) ;; ret h
  | A_fullscreenChange =>
    try_catch (handleFullscreenChange e) (fun _ => skip) ;; ret h
  | A_resubscribe =>
    cleanup e h ;; subscribe e
  end.

Fixpoint run_actions (e : Env) (h : handler_id) (acts : list action)
  : M handler_id :=
  match acts with
  | [] => ret h
  | a :: rest => h' <- run_action e h a ;; run_actions e h' rest
  end.

(** A mount/unmount cycle: both effects run, things happen, the cleanup runs.
    A component whose effect throws is discarded by React. *)
Definition mount_unmount (c : Env * list action) : M unit :=
  try_catch
    (probe (fst c) ;;
     h <- subscribe (fst c) ;;
     h' <- run_actions (fst c) h (snd c) ;;
     cleanup (fst c) h')
    (fun _ => skip).

Fixpoint cycles (cs : list (Env * list action)) : M unit :=
  match cs with
  | [] => skip
  | c :: rest => mount_unmount c ;; cycles rest
  end.

(** ** The speed menu *)

Module DesktopSpeedMenu.

Import PrimFloat.
Local Open Scope Q_scope.

(** The result of [getBoundingClientRect()], in CSS pixels.  Coordinates are
    JavaScript numbers: binary64 floats, with the arithmetic of the
    language ([-] and [+] round to nearest, ties to even). *)
Record DOMRect : Type := {
  top : float;
  right : float;
  bottom : float;
  left : float
}.

(** The [menuPosition] state. *)
Record MenuPosition : Type := {
  menu_top : float;
  menu_left : float
}.

(** A CSS transform; [translateX_percent p] is the text [translateX(p%)]. *)
Inductive Transform : Type :=
| translateX_percent (p : Q).

(** The inline style of [MenuContent]. *)
Record Style : Type := {
  style_top : float;
  style_left : float;
  transform : Transform
}.

(** The props and refs the positioning reads.  A ref is [None] when its
    element is not mounted, and otherwise holds the rectangle the element
    reports. *)
Record Props : Type := {
  showSpeedMenu : bool;
  containerRef : option DOMRect
}.

Inductive callback : Type :=
| onToggleSpeedMenu.

(** Line 186. *)
Definition initial_menuPosition : MenuPosition :=
  {| menu_top := 0%float; menu_left := 0%float |}.

(** Lines 188-198: the effect; it yields the next [menuPosition]. *)
Definition effect (p : Props) (buttonRef : option DOMRect)
           (menuPosition : MenuPosition) : MenuPosition :=
  if showSpeedMenu p then
    match buttonRef, containerRef p with
    | Some buttonRect, Some containerRect =>
      {| menu_top := (bottom buttonRect - top containerRect + 10)%float;
         menu_left := (right buttonRect - left containerRect)%float |}
    | _, _ => menuPosition
    end
  else menuPosition.

(** Lines 200-211: the click handler of the trigger. *)
Definition handleToggle (p : Props) (buttonRef : option DOMRect)
           (menuPosition : MenuPosition) : MenuPosition * list callback :=
  (if negb (showSpeedMenu p) then
     match buttonRef, containerRef p with
     | Some buttonRect, Some containerRect =>
       {| menu_top := (bottom buttonRect - top containerRect + 10)%float;
          menu_left := (right buttonRect - left containerRect)%float |}
     | _, _ => menuPosition
     end
   else menuPosition,
   [onToggleSpeedMenu]).

(** Lines 217-221. *)
Definition MenuContent_style (menuPosition : MenuPosition) : Style :=
  {| style_top := menu_top menuPosition;
     style_left := menu_left menuPosition;
     transform := translateX_percent (-100) |}.

(** Line 254: whether the portal is rendered. *)
Definition portal_rendered (p : Props) (document_defined : bool) : bool :=
  showSpeedMenu p && document_defined.

(** Opening the menu from the trigger: the click handler runs with the menu
    closed, the parent flips [showSpeedMenu], and after the re-render the
    effect runs. *)
Definition open_from_trigger (buttonRef containerRect : option DOMRect)
           (menuPosition : MenuPosition) : MenuPosition :=
  let closed := {| showSpeedMenu := false; containerRef := containerRect |} in
  let opened := {| showSpeedMenu := true; containerRef := containerRect |} in
  effect opened buttonRef (fst (handleToggle closed buttonRef menuPosition)).

(** *** The rendered tree *)

(** What a click or a pointer event on the rendered tree tells the parent. *)
Inductive notification : Type :=
| N_onSpeedChange (speed : Q)
| N_onToggleSpeedMenu
| N_onMouseEnter
| N_onMouseLeave.

(** Lines 226-235: one option of the menu.  [key] is the React key,
    [highlighted] is [playbackRate === speed] (it picks the accent classes),
    [onClick] is what a click tells the parent.  The label, the number
    followed by an x, is left out. *)
Record OptionButton : Type := {
  key : Q;
  highlighted : bool;
  onClick : list notification
}.

Definition option_button (playbackRate speed : Q) : OptionButton :=
  {| key := speed;
     highlighted := Qeq_bool playbackRate speed;
     onClick := [N_onSpeedChange speed] |}.

(** Lines 225-236: [speeds.map(...)]. *)
Definition MenuContent_options (playbackRate : Q) (speeds : list Q)
  : list OptionButton :=
  map (option_button playbackRate) speeds.

(** Line 254, second half: where the portal goes,
    [containerRef.current || document.body]. *)
Inductive PortalTarget : Type :=
| into_container
| into_body.

Definition portal (p : Props) (document_defined : bool) : option PortalTarget :=
  if portal_rendered p document_defined then
    Some match containerRef p with
         | Some _ => into_container
         | None => into_body
         end
  else None.

End DesktopSpeedMenu.

(** ** Vocabulary of the statements *)

(** The browser methods invoked in a log, in order. *)
Fixpoint api_calls (t : list event) : list method :=
  match t with
  | [] => []
  | Call m :: rest => m :: api_calls rest
  | _ :: rest => api_calls rest
  end.

(** The nine methods of the two fallback chains. *)
Definition is_fullscreen_method (m : method) : bool :=
  match m with
  | M_requestFullscreen | M_webkitRequestFullscreen | M_mozRequestFullScreen
  | M_msRequestFullscreen | M_webkitEnterFullscreen
  | M_exitFullscreen | M_webkitExitFullscreen | M_mozCancelFullScreen
  | M_msExitFullscreen => true
  | _ => false
  end.

Definition fullscreen_calls (t : list event) : list method :=
  filter is_fullscreen_method (api_calls t).

(** The two chains, in the order the code tries them. *)
Definition entry_methods : list method :=
  [M_requestFullscreen; M_webkitRequestFullscreen; M_mozRequestFullScreen;
   M_msRequestFullscreen; M_webkitEnterFullscreen].

Definition exit_methods : list method :=
  [M_exitFullscreen; M_webkitExitFullscreen; M_mozCancelFullScreen;
   M_msExitFullscreen].

Definition is_some {A} (o : option A) : bool :=
  match o with
  | Some _ => true
  | None => false
  end.

(** The orientation object the code reaches through
    [window.screen.orientation], if every link exists. *)
Definition screen_orientation (e : Env) : option Orientation :=
  match window e with
  | Some w =>
    match screen w with
    | Some sc => orientation sc
    | None => None
    end
  | None => None
  end.

(** Whether the host exposes a method, on the object the code looks it up on. *)
Definition exposes (e : Env) (m : method) : bool :=
  match m with
  | M_requestFullscreen =>
    match containerRef e with Some c => is_some (requestFullscreen c) | None => false end
  | M_webkitRequestFullscreen =>
    match containerRef e with Some c => is_some (webkitRequestFullscreen c) | None => false end
  | M_mozRequestFullScreen =>
    match containerRef e with Some c => is_some (mozRequestFullScreen c) | None => false end
  | M_msRequestFullscreen =>
    match containerRef e with Some c => is_some (msRequestFullscreen c) | None => false end
  | M_webkitEnterFullscreen =>
    match videoRef e with Some v => is_some (webkitEnterFullscreen v) | None => false end
  | M_exitFullscreen =>
    match document e with Some d => is_some (exitFullscreen d) | None => false end
  | M_webkitExitFullscreen =>
    match document e with Some d => is_some (webkitExitFullscreen d) | None => false end
  | M_mozCancelFullScreen =>
    match document e with Some d => is_some (mozCancelFullScreen d) | None => false end
  | M_msExitFullscreen =>
    match document e with Some d => is_some (msExitFullscreen d) | None => false end
  | M_orientation_lock _ =>
    match screen_orientation e with Some ori => is_some (lock ori) | None => false end
  | M_orientation_unlock =>
    match screen_orientation e with Some ori => is_some (unlock ori) | None => false end
  | M_exitPictureInPicture => is_some (document e)
  | M_requestPictureInPicture => is_some (videoRef e)
  | M_webkitShowPlaybackTargetPicker =>
    match videoRef e with
    | Some v => is_some (webkitShowPlaybackTargetPicker v)
    | None => false
    end
  end.

Definition method_eq_dec (a b : method) : {a = b} + {a <> b}.
Proof. decide equality. apply string_dec. Defined.

(** The host exposes [k] and no other method of the chain. *)
Definition only_exposes (chain : list method) (e : Env) (k : method) : Prop :=
  forall m, In m chain -> (exposes e m = true <-> m = k).

(** The host exposes no method of the chain. *)
Definition exposes_none (chain : list method) (e : Env) : Prop :=
  forall m, In m chain -> exposes e m = false.

(** The values written to [isFullscreen] in a log, in order. *)
Fixpoint fullscreen_writes (t : list event) : list bool :=
  match t with
  | [] => []
  | SetIsFullscreen b :: rest => b :: fullscreen_writes rest
  | _ :: rest => fullscreen_writes rest
  end.

(** The events that belong to the orientation side effect: the lock and
    unlock calls, the host's report of a dropped rejection of theirs, and
    the two warnings the code prints for them. *)
Definition is_orientation_event (ev : event) : bool :=
  match ev with
  | Call (M_orientation_lock _) | Call M_orientation_unlock => true
  | Unhandled (M_orientation_lock _) | Unhandled M_orientation_unlock => true
  | Console Warn msg =>
    String.eqb msg "Orientation lock failed:" ||
    String.eqb msg "Orientation unlock failed:"
  | _ => false
  end.

(** A log without the orientation side effect: the primary command. *)
Definition primary (t : list event) : list event :=
  filter (fun ev => negb (is_orientation_event ev)) t.

(** The same host with a given [window.screen.orientation]. *)
Definition with_orientation (ori : Orientation) (e : Env) : Env :=
  {| document := document e;
     window :=
       Some {| screen := Some {| orientation := Some ori |};
               has_WebKitPlaybackTargetAvailabilityEvent :=
                 match window e with
                 | Some w => has_WebKitPlaybackTargetAvailabilityEvent w
                 | None => false
                 end |};
     containerRef := containerRef e;
     videoRef := videoRef e |}.

Definition lock_landscape : method := M_orientation_lock "landscape".

(** Every registered listener was allocated before [next_handler]. *)
Definition fresh_handlers (s : State) : Prop :=
  Forall (fun l => snd l < next_handler s) (listeners s).

(** The registrations of one handler for the four event names. *)
Definition registrations (h : handler_id) : list (string * handler_id) :=
  map (fun type => (type, h)) fullscreen_change_events.

Definition not_lock_call (ev : event) : Prop :=
  match ev with
  | Call (M_orientation_lock _) => False
  | _ => True
  end.

(** The part of the state the subscription lives in. *)
Definition registry (s : State) : list (string * handler_id) * handler_id :=
  (listeners s, next_handler s).

(** While the effect is active with handler [h] over the registrations
    [base] it found: [h]'s four registrations sit on top of [base]. *)
Definition subscribed (base : list (string * handler_id)) (h : handler_id)
           (s : State) : Prop :=
  listeners s = base ++ registrations h /\
  Forall (fun l => snd l < h) base /\
  h < next_handler s.

(** ** Frame properties of computations *)

(** [m] leaves a component of the state alone. *)
Definition preserves {A X} (f : State -> X) (m : M A) : Prop :=
  forall s, f (post (m s)) = f s.

(** Every event [m] produces satisfies [P]. *)
Definition emits_only {A} (P : event -> Prop) (m : M A) : Prop :=
  forall s, Forall P (events (m s)).

(** [m] always completes normally. *)
Definition never_throws {A} (m : M A) : Prop :=
  forall s, exists a, res (m s) = Ok a.

Definition not_SetIsFullscreen (ev : event) : Prop :=
  match ev with
  | SetIsFullscreen _ => False
  | _ => True
  end.

(** A computation that neither changes [isFullscreen] nor calls its mutator. *)
Definition leaves_isFullscreen {A} (m : M A) : Prop :=
  forall s, isFullscreen (post (m s)) = isFullscreen s /\
            fullscreen_writes (events (m s)) = [].

(** ** Example hosts *)

(** A host used in the examples: a desktop browser with the standard API,
    a mounted container and a mounted media element. *)
Definition standard_document : Document :=
  {| has_pictureInPictureEnabled := true;
     exitFullscreen := Some Returns; webkitExitFullscreen := None;
     mozCancelFullScreen := None; msExitFullscreen := None;
     fullscreenElement := None; webkitFullscreenElement := None;
     mozFullScreenElement := None; msFullscreenElement := None;
     pictureInPictureElement := None; exitPictureInPicture := Returns |}.

Definition standard_window : Window :=
  {| screen := Some {| orientation :=
                         Some {| lock := Some Rejects; unlock := Some Returns |} |};
     has_WebKitPlaybackTargetAvailabilityEvent := false |}.

Definition standard_container : Container :=
  {| requestFullscreen := Some Returns; webkitRequestFullscreen := None;
     mozRequestFullScreen := None; msRequestFullscreen := None |}.

Definition safari_video : Video :=
  {| webkitEnterFullscreen := Some Returns; requestPictureInPicture := Returns;
     webkitShowPlaybackTargetPicker := Some Returns |}.

Definition standard_env : Env :=
  {| document := Some standard_document; window := Some standard_window;
     containerRef := Some standard_container; videoRef := Some safari_video |}.

(** The same host before the container is mounted. *)
Definition unmounted_env : Env :=
  {| document := Some standard_document; window := Some standard_window;
     containerRef := None; videoRef := Some safari_video |}.

(** The document while an element is fullscreen through the WebKit API. *)
Definition webkit_fullscreen_document : Document :=
  {| has_pictureInPictureEnabled := true;
     exitFullscreen := None; webkitExitFullscreen := Some Returns;
     mozCancelFullScreen := None; msExitFullscreen := None;
     fullscreenElement := None; webkitFullscreenElement := Some (element 7);
     mozFullScreenElement := None; msFullscreenElement := None;
     pictureInPictureElement := None; exitPictureInPicture := Returns |}.

Definition webkit_fullscreen_env : Env :=
  {| document := Some webkit_fullscreen_document; window := Some standard_window;
     containerRef := Some standard_container; videoRef := Some safari_video |}.

(** A host without globals (rendering on a server). *)
Definition server_env : Env :=
  {| document := None; window := None; containerRef := None; videoRef := None |}.

(** The shell's state once the probe has found picture-in-picture. *)
Definition pip_state : State :=
  {| isFullscreen := false; isPiPSupported := true;
     isAirPlaySupported := false; listeners := [];
     next_handler := 0 |}.

(** A host showing a picture-in-picture window that it refuses to close. *)
Definition pip_active_env : Env :=
  {| document :=
       Some {| has_pictureInPictureEnabled := true;
               exitFullscreen := Some Returns; webkitExitFullscreen := None;
               mozCancelFullScreen := None; msExitFullscreen := None;
               fullscreenElement := None; webkitFullscreenElement := None;
               mozFullScreenElement := None; msFullscreenElement := None;
               pictureInPictureElement := Some (element 3);
               exitPictureInPicture := Rejects |};
     window := Some standard_window;
     containerRef := Some standard_container;
     videoRef := Some safari_video |}.

(** A host with only the Gecko-prefixed API, which refuses the request. *)
Definition moz_env : Env :=
  {| document :=
       Some {| has_pictureInPictureEnabled := false;
               exitFullscreen := None; webkitExitFullscreen := None;
               mozCancelFullScreen := Some Returns; msExitFullscreen := None;
               fullscreenElement := None; webkitFullscreenElement := None;
               mozFullScreenElement := None; msFullscreenElement := None;
               pictureInPictureElement := None; exitPictureInPicture := Returns |};
     window := Some standard_window;
     containerRef :=
       Some {| requestFullscreen := None; webkitRequestFullscreen := None;
               mozRequestFullScreen := Some Rejects; msRequestFullscreen := None |};
     videoRef :=
       Some {| webkitEnterFullscreen := None; requestPictureInPicture := Returns;
               webkitShowPlaybackTargetPicker := None |} |}.

(** A host on which only the media element can go fullscreen, and throws. *)
Definition car_browser_env : Env :=
  {| document := Some standard_document;
     window := Some standard_window;
     containerRef :=
       Some {| requestFullscreen := None; webkitRequestFullscreen := None;
               mozRequestFullScreen := None; msRequestFullscreen := None |};
     videoRef :=
       Some {| webkitEnterFullscreen := Some Throws;
               requestPictureInPicture := Returns;
               webkitShowPlaybackTargetPicker := None |} |}.

(** A host with the standard API that refuses the request, and a media
    element that can go fullscreen by itself. *)
Definition refusing_env : Env :=
  {| document := Some standard_document;
     window := Some standard_window;
     containerRef :=
       Some {| requestFullscreen := Some Rejects; webkitRequestFullscreen := None;
               mozRequestFullScreen := None; msRequestFullscreen := None |};
     videoRef := Some safari_video |}.

(** The shell's state while the player is fullscreen. *)
Definition fullscreen_state : State :=
  {| isFullscreen := true; isPiPSupported := false;
     isAirPlaySupported := false; listeners := [];
     next_handler := 0 |}.

(** A host whose container has no way into fullscreen, with no media
    element, but with an orientation lock. *)
Definition no_entry_env : Env :=
  {| document := Some standard_document;
     window :=
       Some {| screen := Some {| orientation :=
                                   Some {| lock := Some Returns;
                                           unlock := Some Returns |} |};
               has_WebKitPlaybackTargetAvailabilityEvent := false |};
     containerRef :=
       Some {| requestFullscreen := None; webkitRequestFullscreen := None;
               mozRequestFullScreen := None; msRequestFullscreen := None |};
     videoRef := None |}.

(** Three lives of a component on one page. *)
Definition three_cycles : list (Env * list action) :=
  [(standard_env, [A_toggleFullscreen; A_fullscreenChange; A_resubscribe;
                   A_togglePictureInPicture]);
   (server_env, [A_toggleFullscreen]);
   (webkit_fullscreen_env, [A_fullscreenChange; A_showAirPlayMenu;
                            A_resubscribe; A_resubscribe])].

(** ** Further vocabulary *)

(** Lines 33-94 as the callback of one render.  [useCallback] (dependencies
    at line 94) creates the callback with the [isFullscreen] prop of that
    render (line 17); the callback reads that value, whatever has been
    written to the shell's state since, until a later render replaces it.
    [toggleFullscreen e] is the callback of the render made from the
    current state. *)
Definition toggleFullscreen_rendered (isFullscreen_prop : bool) (e : Env)
  : M unit :=
  match containerRef e with
  | None => skip
  | Some c =>
    if negb isFullscreen_prop then
      try_catch (entry_chain c e ;; lock_orientation e)
                (fun _ => entry_fallback e)
    else
      try_catch (exit_chain e ;; unlock_orientation e)
                (fun _ => console_error "Failed to exit fullscreen:")
  end.


Definition unlock_behaviour (e : Env) : option outcome :=
  match screen_orientation e with
  | Some ori => unlock ori
  | None => None
  end.

Definition video_fullscreen_behaviour (e : Env) : option outcome :=
  match videoRef e with
  | Some v => webkitEnterFullscreen v
  | None => None
  end.

Definition picker_behaviour (e : Env) : option outcome :=
  match videoRef e with
  | Some v => webkitShowPlaybackTargetPicker v
  | None => None
  end.

(** The calls that belong to going into fullscreen, and to leaving it. *)
Definition is_entering_method (m : method) : bool :=
  match m with
  | M_requestFullscreen | M_webkitRequestFullscreen | M_mozRequestFullScreen
  | M_msRequestFullscreen | M_webkitEnterFullscreen | M_orientation_lock _ => true
  | _ => false
  end.

Definition is_exiting_method (m : method) : bool :=
  match m with
  | M_exitFullscreen | M_webkitExitFullscreen | M_mozCancelFullScreen
  | M_msExitFullscreen | M_orientation_unlock => true
  | _ => false
  end.

Definition is_thrown {A} (r : result A) : bool :=
  match r with
  | Ok _ => false
  | Thrown _ => true
  end.

Definition not_console (ev : event) : Prop :=
  match ev with
  | Console _ _ => False
  | _ => True
  end.

(** A host on which every entry method exists; the standard one succeeds. *)
Definition rich_container : Container :=
  {| requestFullscreen := Some Returns;
     webkitRequestFullscreen := Some Throws;
     mozRequestFullScreen := Some Rejects;
     msRequestFullscreen := Some Returns |}.

Definition rich_env : Env :=
  {| document := Some webkit_fullscreen_document;
     window := Some standard_window;
     containerRef := Some rich_container;
     videoRef := Some safari_video |}.

(** The container of [refusing_env]. *)
Definition refusing_container : Container :=
  {| requestFullscreen := Some Rejects; webkitRequestFullscreen := None;
     mozRequestFullScreen := None; msRequestFullscreen := None |}.

(** A host that cannot leave fullscreen: the document's only exit method
    rejects. *)
Definition stuck_document : Document :=
  {| has_pictureInPictureEnabled := true;
     exitFullscreen := Some Rejects; webkitExitFullscreen := None;
     mozCancelFullScreen := None; msExitFullscreen := None;
     fullscreenElement := Some (element 1);
     webkitFullscreenElement := None;
     mozFullScreenElement := None; msFullscreenElement := None;
     pictureInPictureElement := None; exitPictureInPicture := Returns |}.

Definition stuck_env : Env :=
  {| document := Some stuck_document;
     window := Some standard_window;
     containerRef := Some standard_container;
     videoRef := Some safari_video |}.



(** The shell's state once the probe has found AirPlay. *)
Definition airplay_state : State :=
  {| isFullscreen := false; isPiPSupported := false;
     isAirPlaySupported := true; listeners := [];
     next_handler := 0 |}.

(** ** Laws of the combinators *)

Create HintDb frame discriminated.

Section Combinators.

Context {A B : Type}.

Lemma events_bind (m : M A) (k : A -> M B) (s : State) :
  events ((x <- m ;; k x) s) =
  events (m s) ++ match res (m s) with
                  | Ok a => events (k a (post (m s)))
                  | Thrown _ => []
                  end.
Proof.
  unfold bind. destruct (res (m s)); simpl.
  - reflexivity.
  - now rewrite app_nil_r.
Qed.

Lemma post_bind (m : M A) (k : A -> M B) (s : State) :
  post ((x <- m ;; k x) s) =
  match res (m s) with
  | Ok a => post (k a (post (m s)))
  | Thrown _ => post (m s)
  end.
Proof. unfold bind. now destruct (res (m s)). Qed.

Lemma res_bind (m : M A) (k : A -> M B) (s : State) :
  res ((x <- m ;; k x) s) =
  match res (m s) with
  | Ok a => res (k a (post (m s)))
  | Thrown e => Thrown e
  end.
Proof. unfold bind. now destruct (res (m s)). Qed.

Lemma events_try (m : M A) (h : exn -> M A) (s : State) :
  events (try_catch m h s) =
  events (m s) ++ match res (m s) with
                  | Ok _ => []
                  | Thrown x => events (h x (post (m s)))
                  end.
Proof.
  unfold try_catch. destruct (res (m s)); simpl.
  - now rewrite app_nil_r.
  - reflexivity.
Qed.

Lemma post_try (m : M A) (h : exn -> M A) (s : State) :
  post (try_catch m h s) =
  match res (m s) with
  | Ok _ => post (m s)
  | Thrown x => post (h x (post (m s)))
  end.
Proof. unfold try_catch. now destruct (res (m s)). Qed.

Lemma res_try (m : M A) (h : exn -> M A) (s : State) :
  res (try_catch m h s) =
  match res (m s) with
  | Ok a => Ok a
  | Thrown x => res (h x (post (m s)))
  end.
Proof. unfold try_catch. now destruct (res (m s)) eqn:E. Qed.

Variable X : Type.
Variable f : State -> X.
Variable P : event -> Prop.

Lemma preserves_bind (m : M A) (k : A -> M B) :
  preserves f m -> (forall a, preserves f (k a)) -> preserves f (x <- m ;; k x).
Proof.
  intros Hm Hk s. rewrite post_bind.
  destruct (res (m s)); [rewrite Hk|]; apply Hm.
Qed.

Lemma preserves_try (m : M A) (h : exn -> M A) :
  preserves f m -> (forall x, preserves f (h x)) -> preserves f (try_catch m h).
Proof.
  intros Hm Hh s. rewrite post_try.
  destruct (res (m s)); [|rewrite Hh]; apply Hm.
Qed.

Lemma emits_only_bind (m : M A) (k : A -> M B) :
  emits_only P m -> (forall a, emits_only P (k a)) -> emits_only P (x <- m ;; k x).
Proof.
  intros Hm Hk s. rewrite events_bind. apply Forall_app. split; [apply Hm|].
  destruct (res (m s)); [apply Hk | constructor].
Qed.

Lemma emits_only_try (m : M A) (h : exn -> M A) :
  emits_only P m -> (forall x, emits_only P (h x)) -> emits_only P (try_catch m h).
Proof.
  intros Hm Hh s. rewrite events_try. apply Forall_app. split; [apply Hm|].
  destruct (res (m s)); [constructor | apply Hh].
Qed.

Lemma never_throws_bind (m : M A) (k : A -> M B) :
  never_throws m -> (forall a, never_throws (k a)) -> never_throws (x <- m ;; k x).
Proof.
  intros Hm Hk s. rewrite res_bind. destruct (Hm s) as [a ->]. apply Hk.
Qed.

Lemma never_throws_try (m : M A) (h : exn -> M A) :
  (forall x, never_throws (h x)) -> never_throws (try_catch m h).
Proof.
  intros Hh s. rewrite res_try. destruct (res (m s)) as [a|x]; [now exists a|].
  apply Hh.
Qed.

Lemma preserves_ret (a : A) : preserves f (ret a).
Proof. now intros s. Qed.

Lemma preserves_throw (x : exn) : preserves f (@throw A x).
Proof. now intros s. Qed.

Lemma emits_only_ret (a : A) : emits_only P (ret a).
Proof. intros s. constructor. Qed.

Lemma emits_only_throw (x : exn) : emits_only P (@throw A x).
Proof. intros s. constructor. Qed.

Lemma never_throws_ret (a : A) : never_throws (ret a).
Proof. intros s. now exists a. Qed.

End Combinators.

#[export] Hint Resolve preserves_bind preserves_try emits_only_bind emits_only_try
never_throws_bind never_throws_try preserves_ret preserves_throw
emits_only_ret emits_only_throw never_throws_ret : frame.

Section Primitives.

Variable X : Type.
Variable f : State -> X.
Variable P : event -> Prop.

Lemma preserves_emit ev : preserves f (emit ev).
Proof. now intros s. Qed.

Lemma emits_only_emit ev : P ev -> emits_only P (emit ev).
Proof. intros H s. simpl. now repeat constructor. Qed.

Lemma never_throws_emit ev : never_throws (emit ev).
Proof. intros s. now exists tt. Qed.

Lemma preserves_skip : preserves f skip.
Proof. now intros s. Qed.

Lemma emits_only_skip : emits_only P skip.
Proof. intros s. constructor. Qed.

Lemma never_throws_skip : never_throws skip.
Proof. intros s. now exists tt. Qed.

Lemma preserves_call_await m o : preserves f (call_await m o).
Proof. intros s. now destruct o. Qed.

Lemma preserves_call_sync m o : preserves f (call_sync m o).
Proof. intros s. now destruct o. Qed.

Lemma preserves_call_catch m o : preserves f (call_catch m o).
Proof. intros s. now destruct o. Qed.

Lemma emits_only_call_await m o : P (Call m) -> emits_only P (call_await m o).
Proof. intros H s. destruct o; simpl; now repeat constructor. Qed.

Lemma emits_only_call_sync m o :
  P (Call m) -> P (Unhandled m) -> emits_only P (call_sync m o).
Proof. intros H H' s. destruct o; simpl; now repeat constructor. Qed.

Lemma emits_only_call_catch m o : P (Call m) -> emits_only P (call_catch m o).
Proof. intros H s. destruct o; simpl; now repeat constructor. Qed.

Lemma preserves_global_document e : preserves f (global_document e).
Proof. intros s. unfold global_document. now destruct (document e). Qed.

Lemma preserves_global_window e : preserves f (global_window e).
Proof. intros s. unfold global_window. now destruct (window e). Qed.

Lemma emits_only_global_document e : emits_only P (global_document e).
Proof. intros s. unfold global_document. destruct (document e); constructor. Qed.

Lemma emits_only_global_window e : emits_only P (global_window e).
Proof. intros s. unfold global_window. destruct (window e); constructor. Qed.

Lemma preserves_read_isFullscreen : preserves f read_isFullscreen.
Proof. now intros s. Qed.

Lemma preserves_read_isPiPSupported : preserves f read_isPiPSupported.
Proof. now intros s. Qed.

Lemma preserves_read_isAirPlaySupported : preserves f read_isAirPlaySupported.
Proof. now intros s. Qed.

Lemma emits_only_read_isFullscreen : emits_only P read_isFullscreen.
Proof. intros s. constructor. Qed.

Lemma emits_only_read_isPiPSupported : emits_only P read_isPiPSupported.
Proof. intros s. constructor. Qed.

Lemma emits_only_read_isAirPlaySupported : emits_only P read_isAirPlaySupported.
Proof. intros s. constructor. Qed.

End Primitives.

#[export] Hint Resolve preserves_emit emits_only_emit never_throws_emit
  preserves_skip emits_only_skip never_throws_skip
  preserves_call_await preserves_call_sync preserves_call_catch
  emits_only_call_await emits_only_call_sync emits_only_call_catch
  preserves_global_document preserves_global_window
  emits_only_global_document emits_only_global_window
  preserves_read_isFullscreen preserves_read_isPiPSupported
  preserves_read_isAirPlaySupported emits_only_read_isFullscreen
  emits_only_read_isPiPSupported emits_only_read_isAirPlaySupported : frame.

Lemma never_throws_read_isFullscreen : never_throws read_isFullscreen.
Proof. intros s. now exists (isFullscreen s). Qed.

Lemma never_throws_read_isPiPSupported : never_throws read_isPiPSupported.
Proof. intros s. now exists (isPiPSupported s). Qed.

#[export] Hint Resolve never_throws_read_isFullscreen
  never_throws_read_isPiPSupported : frame.

(** Frame goals follow the structure of the program: one combinator law per
    [bind] and [try_catch], one case split per [match], a primitive's lemma
    at each leaf. *)
Ltac frame_step :=
  lazymatch goal with
  | |- preserves _ (bind _ _) => apply preserves_bind; [|intros ?]
  | |- preserves _ (try_catch _ _) => apply preserves_try; [|intros ?]
  | |- preserves _ (match ?x with _ => _ end) => destruct x
  | |- emits_only _ (bind _ _) => apply emits_only_bind; [|intros ?]
  | |- emits_only _ (try_catch _ _) => apply emits_only_try; [|intros ?]
  | |- emits_only _ (match ?x with _ => _ end) => destruct x
  | |- never_throws (bind _ _) => apply never_throws_bind; [|intros ?]
  | |- never_throws (try_catch _ _) => apply never_throws_try; intros ?
  | |- never_throws (match ?x with _ => _ end) => destruct x
  end.

Ltac frame := intros; repeat frame_step; auto with frame.

(** Runs the monad's plumbing as far as the host's answers are known. *)
Ltac run_js :=
  cbv beta iota zeta delta
    [bind try_catch ret throw after skip emit call_await call_sync call_catch
     console_warn console_error global_document global_window
     read_isFullscreen read_isPiPSupported read_isAirPlaySupported
     res post events app negb].

(** ** The frame of each operation of the hook *)

Lemma toggleFullscreen_preserves {X} (f : State -> X) e :
  preserves f (toggleFullscreen e).
Proof.
  unfold toggleFullscreen, entry_chain, lock_orientation, entry_fallback,
    exit_chain, unlock_orientation, console_warn, console_error.
  frame.
Qed.

Lemma toggleFullscreen_emits_only (P : event -> Prop) e :
  (forall m, P (Call m)) -> (forall m, P (Unhandled m)) ->
  (forall l msg, P (Console l msg)) ->
  emits_only P (toggleFullscreen e).
Proof.
  unfold toggleFullscreen, entry_chain, lock_orientation, entry_fallback,
    exit_chain, unlock_orientation, console_warn, console_error.
  frame.
Qed.

Lemma toggleFullscreen_never_throws e : never_throws (toggleFullscreen e).
Proof.
  unfold toggleFullscreen, entry_fallback, console_warn, console_error.
  frame.
Qed.


Lemma setIsPiPSupported_keeps_isFullscreen b :
  preserves isFullscreen (setIsPiPSupported b).
Proof. now intros s. Qed.

Lemma setIsAirPlaySupported_keeps_isFullscreen b :
  preserves isFullscreen (setIsAirPlaySupported b).
Proof. now intros s. Qed.

Lemma setIsPiPSupported_quiet b :
  emits_only not_SetIsFullscreen (setIsPiPSupported b).
Proof. intros s. simpl. now repeat constructor. Qed.

Lemma setIsAirPlaySupported_quiet b :
  emits_only not_SetIsFullscreen (setIsAirPlaySupported b).
Proof. intros s. simpl. now repeat constructor. Qed.

Lemma addEventListener_keeps_isFullscreen type h :
  preserves isFullscreen (addEventListener type h).
Proof.
  intros s. unfold addEventListener. simpl.
  now destruct (existsb (same_listener type h) (listeners s)).
Qed.

Lemma removeEventListener_keeps_isFullscreen type h :
  preserves isFullscreen (removeEventListener type h).
Proof. now intros s. Qed.

Lemma addEventListener_quiet type h :
  emits_only not_SetIsFullscreen (addEventListener type h).
Proof. intros s. simpl. now repeat constructor. Qed.

Lemma removeEventListener_quiet type h :
  emits_only not_SetIsFullscreen (removeEventListener type h).
Proof. intros s. simpl. now repeat constructor. Qed.

Lemma new_handler_keeps_isFullscreen : preserves isFullscreen new_handler.
Proof. now intros s. Qed.

Lemma new_handler_quiet : emits_only not_SetIsFullscreen new_handler.
Proof. intros s. constructor. Qed.

#[export] Hint Resolve setIsPiPSupported_keeps_isFullscreen
  setIsAirPlaySupported_keeps_isFullscreen setIsPiPSupported_quiet
  setIsAirPlaySupported_quiet addEventListener_keeps_isFullscreen
  removeEventListener_keeps_isFullscreen addEventListener_quiet
  removeEventListener_quiet new_handler_keeps_isFullscreen
  new_handler_quiet : frame.

#[export] Hint Extern 1 (not_SetIsFullscreen _) => exact I : frame.
#[export] Hint Extern 1 (not_lock_call _) => exact I : frame.

Lemma quiet_no_writes (t : list event) :
  Forall not_SetIsFullscreen t -> fullscreen_writes t = [].
Proof.
  induction 1 as [|ev t Hev _ IH]; [reflexivity|].
  destruct ev; simpl in *; auto. contradiction.
Qed.

Lemma fullscreen_writes_app (t u : list event) :
  fullscreen_writes (t ++ u) = fullscreen_writes t ++ fullscreen_writes u.
Proof.
  induction t as [|ev t IH]; [reflexivity|].
  destruct ev; simpl; now rewrite ?IH.
Qed.

Lemma leaves_isFullscreen_intro {A} (m : M A) :
  preserves isFullscreen m -> emits_only not_SetIsFullscreen m ->
  leaves_isFullscreen m.
Proof. intros Hp He s. split; [apply Hp | apply quiet_no_writes, He]. Qed.

Lemma probe_leaves_isFullscreen e : leaves_isFullscreen (probe e).
Proof. apply leaves_isFullscreen_intro; unfold probe; frame. Qed.

Lemma togglePictureInPicture_leaves_isFullscreen e :
  leaves_isFullscreen (togglePictureInPicture e).
Proof.
  apply leaves_isFullscreen_intro;
    unfold togglePictureInPicture, console_error; frame.
Qed.

Lemma showAirPlayMenu_leaves_isFullscreen e :
  leaves_isFullscreen (showAirPlayMenu e).
Proof.
  apply leaves_isFullscreen_intro; unfold showAirPlayMenu; frame.
Qed.

Lemma subscribe_leaves_isFullscreen e : leaves_isFullscreen (subscribe e).
Proof. apply leaves_isFullscreen_intro; unfold subscribe; frame. Qed.

Lemma cleanup_leaves_isFullscreen e h : leaves_isFullscreen (cleanup e h).
Proof. apply leaves_isFullscreen_intro; unfold cleanup; frame. Qed.

Lemma toggleFullscreen_leaves_isFullscreen e :
  leaves_isFullscreen (toggleFullscreen e).
Proof.
  apply leaves_isFullscreen_intro.
  - apply toggleFullscreen_preserves.
  - now apply toggleFullscreen_emits_only.
Qed.

Lemma recheck_orientation_leaves_isFullscreen e b :
  leaves_isFullscreen (recheck_orientation e b).
Proof. apply leaves_isFullscreen_intro; unfold recheck_orientation; frame. Qed.

Lemma handleFullscreenChange_writes e d s :
  document e = Some d ->
  fullscreen_writes (events (handleFullscreenChange e s)) = [isInFullscreen d] /\
  isFullscreen (post (handleFullscreenChange e s)) = isInFullscreen d.
Proof.
  intros Hd. unfold handleFullscreenChange, global_document. rewrite Hd.
  rewrite events_bind, post_bind. cbn [ret res post events app].
  rewrite events_bind, post_bind. cbn [setIsFullscreen res post events app].
  destruct (recheck_orientation_leaves_isFullscreen e (isInFullscreen d)
              (with_isFullscreen (isInFullscreen d) s)) as [Hp Hw].
  rewrite Hp. cbn [fullscreen_writes]. now rewrite Hw.
Qed.

Lemma isInFullscreen_orb (d : Document) :
  isInFullscreen d =
  truthy (fullscreenElement d) || truthy (webkitFullscreenElement d) ||
  truthy (mozFullScreenElement d) || truthy (msFullscreenElement d).
Proof.
  unfold isInFullscreen.
  destruct (fullscreenElement d), (webkitFullscreenElement d),
    (mozFullScreenElement d), (msFullscreenElement d); reflexivity.
Qed.

(** ** The claims *)

(** C10. When [containerRef.current] is null, [toggleFullscreen] returns at
    once: it completes normally, changes no state and produces no effect at
    all, so no browser method is invoked; in particular the media element's
    [webkitEnterFullscreen] is not reached, whatever the media element
    offers. *)
Theorem toggleFullscreen_null_container (e : Env) (s : State) :
  containerRef e = None ->
  res (toggleFullscreen e s) = Ok tt /\
  post (toggleFullscreen e s) = s /\
  events (toggleFullscreen e s) = [] /\
  api_calls (events (toggleFullscreen e s)) = [] /\
  ~ In (Call M_webkitEnterFullscreen) (events (toggleFullscreen e s)).
Proof.
  intros Hc. unfold toggleFullscreen. rewrite Hc. cbn.
  repeat split; auto.
Qed.

Lemma toggleFullscreen_null_container_witness :
  containerRef unmounted_env = None /\
  exposes unmounted_env M_webkitEnterFullscreen = true /\
  res (toggleFullscreen unmounted_env initial_state) = Ok tt /\
  post (toggleFullscreen unmounted_env initial_state) = initial_state /\
  events (toggleFullscreen unmounted_env initial_state) = [] /\
  api_calls (events (toggleFullscreen unmounted_env initial_state)) = [] /\
  ~ In (Call M_webkitEnterFullscreen)
       (events (toggleFullscreen unmounted_env initial_state)).
Proof.
  split; [reflexivity|]. split; [reflexivity|].
  apply (toggleFullscreen_null_container unmounted_env initial_state).
  reflexivity.
Defined.

(** C2. [toggleFullscreen] never calls [setIsFullscreen]: for every host and
    every state, whatever its chains do, [isFullscreen] is the same after the
    command and the command's effects hold no write to it.  The same goes for
    every other operation of the hook (the probe, [togglePictureInPicture],
    [showAirPlayMenu], the subscription and its cleanup); the one place that
    writes [isFullscreen] is [handleFullscreenChange], which writes it once
    whenever it has a document to look at. *)
Theorem only_the_handler_writes_isFullscreen :
  (forall e s,
      isFullscreen (post (toggleFullscreen e s)) = isFullscreen s /\
      fullscreen_writes (events (toggleFullscreen e s)) = [] /\
      res (toggleFullscreen e s) = Ok tt) /\
  (forall e, leaves_isFullscreen (probe e)) /\
  (forall e, leaves_isFullscreen (togglePictureInPicture e)) /\
  (forall e, leaves_isFullscreen (showAirPlayMenu e)) /\
  (forall e, leaves_isFullscreen (subscribe e)) /\
  (forall e h, leaves_isFullscreen (cleanup e h)) /\
  (forall e s,
      fullscreen_writes (events (handleFullscreenChange e s)) =
      match document e with
      | Some d => [isInFullscreen d]
      | None => []
      end).
Proof.
  repeat split.
  - apply toggleFullscreen_leaves_isFullscreen.
  - apply toggleFullscreen_leaves_isFullscreen.
  - destruct (toggleFullscreen_never_throws e s) as [[] H]. exact H.
  - apply probe_leaves_isFullscreen.
  - apply probe_leaves_isFullscreen.
  - apply togglePictureInPicture_leaves_isFullscreen.
  - apply togglePictureInPicture_leaves_isFullscreen.
  - apply showAirPlayMenu_leaves_isFullscreen.
  - apply showAirPlayMenu_leaves_isFullscreen.
  - apply subscribe_leaves_isFullscreen.
  - apply subscribe_leaves_isFullscreen.
  - apply cleanup_leaves_isFullscreen.
  - apply cleanup_leaves_isFullscreen.
  - intros e s. destruct (document e) as [d|] eqn:Hd.
    + now apply handleFullscreenChange_writes.
    + unfold handleFullscreenChange, global_document. now rewrite Hd.
Qed.

(** C3. Each time the fullscreen-change handler fires (on a document), it
    writes [isFullscreen] exactly once, and the value written, which is also
    the value of [isFullscreen] when the handler is done, is the disjunction
    of the truthiness of [document.fullscreenElement],
    [webkitFullscreenElement], [mozFullScreenElement] and
    [msFullscreenElement] as the document has them at that moment. *)
Theorem handleFullscreenChange_writes_or (e : Env) (d : Document) (s : State) :
  document e = Some d ->
  let v := truthy (fullscreenElement d) || truthy (webkitFullscreenElement d) ||
           truthy (mozFullScreenElement d) || truthy (msFullscreenElement d) in
  fullscreen_writes (events (handleFullscreenChange e s)) = [v] /\
  isFullscreen (post (handleFullscreenChange e s)) = v.
Proof.
  intros Hd v. subst v. rewrite <- isInFullscreen_orb.
  now apply handleFullscreenChange_writes.
Qed.

Lemma handleFullscreenChange_writes_or_witness :
  document webkit_fullscreen_env = Some webkit_fullscreen_document /\
  fullscreen_writes (events (handleFullscreenChange webkit_fullscreen_env initial_state))
  = [true] /\
  isFullscreen (post (handleFullscreenChange webkit_fullscreen_env initial_state))
  = true.
Proof.
  split; [reflexivity|].
  apply (handleFullscreenChange_writes_or webkit_fullscreen_env
           webkit_fullscreen_document initial_state).
  reflexivity.
Defined.

(** C6. The capability probe never throws.  Where [document] is undefined it
    does not call [setIsPiPSupported] and [isPiPSupported] keeps its value;
    where [window] is undefined it does not call [setIsAirPlaySupported] and
    [isAirPlaySupported] keeps its value.  Where the global exists the flag
    is set, once, to whether ['pictureInPictureEnabled'] is in [document],
    respectively ['WebKitPlaybackTargetAvailabilityEvent'] in [window]. *)
Theorem probe_is_defensive (e : Env) (s : State) :
  res (probe e s) = Ok tt /\
  match document e with
  | None =>
    isPiPSupported (post (probe e s)) = isPiPSupported s /\
    forall b, ~ In (SetIsPiPSupported b) (events (probe e s))
  | Some d =>
    isPiPSupported (post (probe e s)) = has_pictureInPictureEnabled d /\
    forall b, In (SetIsPiPSupported b) (events (probe e s)) <->
              b = has_pictureInPictureEnabled d
  end /\
  match window e with
  | None =>
    isAirPlaySupported (post (probe e s)) = isAirPlaySupported s /\
    forall b, ~ In (SetIsAirPlaySupported b) (events (probe e s))
  | Some w =>
    isAirPlaySupported (post (probe e s)) =
    has_WebKitPlaybackTargetAvailabilityEvent w /\
    forall b, In (SetIsAirPlaySupported b) (events (probe e s)) <->
              b = has_WebKitPlaybackTargetAvailabilityEvent w
  end.
Proof.
  unfold probe.
  destruct (document e) as [d|], (window e) as [w|]; cbn;
    repeat split; try tauto; try congruence;
    try (intros [H|[H|[]]]; congruence);
    try (intros [H|[]]; congruence);
    try (intros ->; auto);
    intros b [H|[]]; discriminate H.
Qed.

Example probe_without_globals :
  probe server_env initial_state = mkRun (Ok tt) initial_state [].
Proof. reflexivity. Qed.

Example probe_standard :
  let r := probe standard_env initial_state in
  isPiPSupported (post r) = true /\ isAirPlaySupported (post r) = false /\
  events r = [SetIsPiPSupported true; SetIsAirPlaySupported false].
Proof. repeat split. Qed.

(** C9. [togglePictureInPicture] always completes normally.  With no media
    element, or with [isPiPSupported] false, it does nothing at all.
    Otherwise it makes exactly one browser call:
    [document.exitPictureInPicture()] when [document.pictureInPictureElement]
    is non-null, [video.requestPictureInPicture()] when it is null; and when
    that call throws or rejects, the failure is printed with [console.error]
    and goes no further. *)
Theorem togglePictureInPicture_spec (e : Env) (s : State) :
  res (togglePictureInPicture e s) = Ok tt /\
  post (togglePictureInPicture e s) = s /\
  (videoRef e = None \/ isPiPSupported s = false ->
   events (togglePictureInPicture e s) = []) /\
  (forall v d,
      videoRef e = Some v -> isPiPSupported s = true -> document e = Some d ->
      let m := if truthy (pictureInPictureElement d)
               then M_exitPictureInPicture else M_requestPictureInPicture in
      let o := if truthy (pictureInPictureElement d)
               then exitPictureInPicture d else requestPictureInPicture v in
      events (togglePictureInPicture e s) =
      Call m :: match o with
                | Returns => []
                | Throws | Rejects =>
                  [Console Error "Failed to toggle Picture-in-Picture:"]
                end).
Proof.
  unfold togglePictureInPicture.
  repeat split.
  - destruct (videoRef e); [|reflexivity]. run_js.
    destruct (isPiPSupported s); [|reflexivity].
    destruct (document e) as [d|]; [|reflexivity]. run_js.
    destruct (pictureInPictureElement d);
      [destruct (exitPictureInPicture d) | destruct (requestPictureInPicture v)];
      reflexivity.
  - destruct (videoRef e); [|reflexivity]. run_js.
    destruct (isPiPSupported s); [|reflexivity].
    destruct (document e) as [d|]; [|reflexivity]. run_js.
    destruct (pictureInPictureElement d);
      [destruct (exitPictureInPicture d) | destruct (requestPictureInPicture v)];
      reflexivity.
  - intros [Hv|Hp].
    + now rewrite Hv.
    + destruct (videoRef e); [|reflexivity]. run_js. now rewrite Hp.
  - intros v d Hv Hp Hd. rewrite Hv. run_js. rewrite Hp, Hd. run_js.
    destruct (pictureInPictureElement d); cbn [truthy];
      [destruct (exitPictureInPicture d) | destruct (requestPictureInPicture v)];
      reflexivity.
Qed.

Lemma togglePictureInPicture_spec_witness :
  (videoRef pip_active_env = Some safari_video /\
   isPiPSupported pip_state = true) /\
  res (togglePictureInPicture pip_active_env pip_state) = Ok tt /\
  events (togglePictureInPicture pip_active_env pip_state) =
  [Call M_exitPictureInPicture;
   Console Error "Failed to toggle Picture-in-Picture:"].
Proof.
  split; [split; reflexivity|].
  destruct (togglePictureInPicture_spec pip_active_env pip_state)
    as (Hres & _ & _ & Hcall).
  split; [exact Hres|].
  exact (Hcall safari_video _ eq_refl eq_refl eq_refl).
Defined.

(** *** The fallback chains *)

Lemma only_exposes_decides chain e k m :
  only_exposes chain e k -> In m chain ->
  exposes e m = if method_eq_dec m k then true else false.
Proof.
  intros H Hm. specialize (H m Hm).
  destruct (method_eq_dec m k) as [->|Hne].
  - now apply H.
  - destruct (exposes e m); [|reflexivity]. exfalso. apply Hne. now apply H.
Qed.

Lemma entry_chain_only_kth e s k :
  containerRef e <> None -> isFullscreen s = false ->
  In k entry_methods -> only_exposes entry_methods e k ->
  fullscreen_calls (events (toggleFullscreen e s)) = [k] \/
  (k = M_webkitEnterFullscreen /\
   fullscreen_calls (events (toggleFullscreen e s)) = [k; k]).
Proof.
  intros Hc Hfs Hk Hon.
  pose proof (only_exposes_decides _ _ _ M_requestFullscreen Hon) as H1.
  pose proof (only_exposes_decides _ _ _ M_webkitRequestFullscreen Hon) as H2.
  pose proof (only_exposes_decides _ _ _ M_mozRequestFullScreen Hon) as H3.
  pose proof (only_exposes_decides _ _ _ M_msRequestFullscreen Hon) as H4.
  pose proof (only_exposes_decides _ _ _ M_webkitEnterFullscreen Hon) as H5.
  clear Hon.
  destruct e as [doc win [c|] vid]; [|now elim Hc].
  destruct c as [rf wrf mrf msf], s as [fs pip air ls nh].
  cbn in Hfs. subst fs.
  cbn in Hk.
  destruct Hk as [<-|[<-|[<-|[<-|[<-|[]]]]]];
    cbn in H1, H2, H3, H4, H5;
    specialize (H1 ltac:(tauto)); specialize (H2 ltac:(tauto));
    specialize (H3 ltac:(tauto)); specialize (H4 ltac:(tauto));
    specialize (H5 ltac:(tauto)).
  all: destruct rf; try discriminate H1; destruct wrf; try discriminate H2;
    destruct mrf; try discriminate H3; destruct msf; try discriminate H4.
  all: clear H1 H2 H3 H4.
  all: destruct vid as [[wef rpip picker]|]; cbn in H5;
    try destruct wef; try discriminate H5; clear H5.
  all: clear Hc; destruct win as [[[[[[[l|] u]|]]|] airplay]|].
  all: repeat match goal with x : outcome |- _ => destruct x end.
  all: first [left; reflexivity | right; split; reflexivity].
Qed.

Lemma exit_chain_only_kth e s k :
  containerRef e <> None -> isFullscreen s = true ->
  In k exit_methods -> only_exposes exit_methods e k ->
  fullscreen_calls (events (toggleFullscreen e s)) = [k].
Proof.
  intros Hc Hfs Hk Hon.
  pose proof (only_exposes_decides _ _ _ M_exitFullscreen Hon) as H1.
  pose proof (only_exposes_decides _ _ _ M_webkitExitFullscreen Hon) as H2.
  pose proof (only_exposes_decides _ _ _ M_mozCancelFullScreen Hon) as H3.
  pose proof (only_exposes_decides _ _ _ M_msExitFullscreen Hon) as H4.
  clear Hon.
  destruct e as [doc win [c|] vid]; [|now elim Hc].
  destruct s as [fs pip air ls nh].
  cbn in Hfs. subst fs.
  cbn in Hk.
  destruct Hk as [<-|[<-|[<-|[<-|[]]]]];
    cbn in H1, H2, H3, H4;
    specialize (H1 ltac:(tauto)); specialize (H2 ltac:(tauto));
    specialize (H3 ltac:(tauto)); specialize (H4 ltac:(tauto)).
  all: destruct doc as [[pipE ef wef mcf mef fe wfe mfe msfe pe epip]|];
    cbn in H1, H2, H3, H4; try discriminate H1; try discriminate H2;
    try discriminate H3; try discriminate H4.
  all: destruct ef; try discriminate H1; destruct wef; try discriminate H2;
    destruct mcf; try discriminate H3; destruct mef; try discriminate H4.
  all: clear Hc H1 H2 H3 H4; destruct win as [[[[[[l [u|]]|]]|] airplay]|].
  all: repeat match goal with x : outcome |- _ => destruct x end.
  all: reflexivity.
Qed.

(** C1. Take a mounted container.  When [isFullscreen] is false and the host
    exposes exactly one of the five entry methods ([requestFullscreen],
    [webkitRequestFullscreen], [mozRequestFullScreen], [msRequestFullscreen]
    on the container, [webkitEnterFullscreen] on the media element), or when
    [isFullscreen] is true and the host exposes exactly one of the four exit
    methods on the document, the fullscreen methods [toggleFullscreen]
    invokes are that method and no other; and any of them but the media
    element's [webkitEnterFullscreen] is invoked exactly once. *)
Theorem fallback_chain_invokes_only_kth (e : Env) (s : State) (k : method) :
  containerRef e <> None ->
  (isFullscreen s = false /\ In k entry_methods /\
   only_exposes entry_methods e k) \/
  (isFullscreen s = true /\ In k exit_methods /\
   only_exposes exit_methods e k) ->
  (forall m, In m (fullscreen_calls (events (toggleFullscreen e s))) <-> m = k) /\
  (k <> M_webkitEnterFullscreen ->
   fullscreen_calls (events (toggleFullscreen e s)) = [k]).
Proof.
  intros Hc [(Hfs & Hk & Hon)|(Hfs & Hk & Hon)].
  - destruct (entry_chain_only_kth e s k Hc Hfs Hk Hon) as [H|[Hk5 H]];
      rewrite H; split; try tauto; intros m; cbn; intuition congruence.
  - rewrite (exit_chain_only_kth e s k Hc Hfs Hk Hon).
    split; [|reflexivity]. intros m; cbn; intuition congruence.
Qed.

Lemma fallback_chain_invokes_only_kth_witness :
  (containerRef moz_env <> None /\
   only_exposes entry_methods moz_env M_mozRequestFullScreen /\
   only_exposes exit_methods moz_env M_mozCancelFullScreen) /\
  fullscreen_calls (events (toggleFullscreen moz_env initial_state)) =
  [M_mozRequestFullScreen] /\
  fullscreen_calls (events (toggleFullscreen moz_env fullscreen_state)) =
  [M_mozCancelFullScreen].
Proof.
  assert (Hc : containerRef moz_env <> None) by discriminate.
  assert (Hin : only_exposes entry_methods moz_env M_mozRequestFullScreen).
  { intros m [<-|[<-|[<-|[<-|[<-|[]]]]]]; cbn; split; intros H;
      first [reflexivity | discriminate H]. }
  assert (Hout : only_exposes exit_methods moz_env M_mozCancelFullScreen).
  { intros m [<-|[<-|[<-|[<-|[]]]]]; cbn; split; intros H;
      first [reflexivity | discriminate H]. }
  split; [auto|]. split.
  - apply (fallback_chain_invokes_only_kth moz_env initial_state
             M_mozRequestFullScreen Hc).
    + left. split; [reflexivity|]. split; [cbn; tauto | exact Hin].
    + discriminate.
  - apply (fallback_chain_invokes_only_kth moz_env fullscreen_state
             M_mozCancelFullScreen Hc).
    + right. split; [reflexivity|]. split; [cbn; tauto | exact Hout].
    + discriminate.
Defined.

(** When the only entry point is the media element's and it throws, the
    outer [catch] calls it a second time. *)
Example webkitEnterFullscreen_called_twice :
  events (toggleFullscreen car_browser_env initial_state) =
  [Call M_webkitEnterFullscreen;
   Console Warn "Fullscreen request failed, trying fallback:";
   Call M_webkitEnterFullscreen;
   Console Error "Final fullscreen fallback failed:"].
Proof. reflexivity. Qed.

(** When the container's method exists and rejects, the outer [catch] goes
    on to the media element, and the lock is not requested. *)
Example rejected_request_falls_back_to_video :
  events (toggleFullscreen refusing_env initial_state) =
  [Call M_requestFullscreen;
   Console Warn "Fullscreen request failed, trying fallback:";
   Call M_webkitEnterFullscreen].
Proof. reflexivity. Qed.

(** *** The shape of [toggleFullscreen] on a mounted container *)

Lemma after_nil {A} (r : Run A) : after [] r = r.
Proof. now destruct r. Qed.

Lemma toggleFullscreen_entering e c s :
  containerRef e = Some c -> isFullscreen s = false ->
  toggleFullscreen e s =
  try_catch (entry_chain c e ;; lock_orientation e) (fun _ => entry_fallback e) s.
Proof.
  intros Hc Hfs. unfold toggleFullscreen. rewrite Hc.
  unfold bind at 1, read_isFullscreen. cbn [res post events].
  rewrite Hfs. apply after_nil.
Qed.

Lemma toggleFullscreen_exiting e c s :
  containerRef e = Some c -> isFullscreen s = true ->
  toggleFullscreen e s =
  try_catch (exit_chain e ;; unlock_orientation e)
            (fun _ => console_error "Failed to exit fullscreen:") s.
Proof.
  intros Hc Hfs. unfold toggleFullscreen. rewrite Hc.
  unfold bind at 1, read_isFullscreen. cbn [res post events].
  rewrite Hfs. apply after_nil.
Qed.

Lemma primary_app (t u : list event) : primary (t ++ u) = primary t ++ primary u.
Proof. apply filter_app. Qed.

(** With an orientation object in place, the lock and the unlock complete
    whatever the object does, and leave nothing in the primary log. *)
Lemma lock_orientation_swallowed ori e s :
  res (lock_orientation (with_orientation ori e) s) = Ok tt /\
  post (lock_orientation (with_orientation ori e) s) = s /\
  primary (events (lock_orientation (with_orientation ori e) s)) = [].
Proof. destruct ori as [[[]|] u]; repeat split. Qed.

Lemma unlock_orientation_swallowed ori e s :
  res (unlock_orientation (with_orientation ori e) s) = Ok tt /\
  post (unlock_orientation (with_orientation ori e) s) = s /\
  primary (events (unlock_orientation (with_orientation ori e) s)) = [].
Proof. destruct ori as [l [[]|]]; repeat split. Qed.

(** A chain followed by a swallowed side effect is, for the primary log,
    the chain alone. *)
Lemma chain_then_swallowed (chain side : M unit) (s : State) :
  (forall s', res (side s') = Ok tt /\ post (side s') = s' /\
              primary (events (side s')) = []) ->
  res ((chain ;; side) s) = res (chain s) /\
  post ((chain ;; side) s) = post (chain s) /\
  primary (events ((chain ;; side) s)) = primary (events (chain s)).
Proof.
  intros Hside. rewrite res_bind, post_bind, events_bind, primary_app.
  destruct (res (chain s)) as [[]|x].
  - destruct (Hside (post (chain s))) as (-> & -> & ->).
    now rewrite app_nil_r.
  - now rewrite app_nil_r.
Qed.

Lemma try_catch_primary (body body' : M unit) (h : exn -> M unit) (s : State) :
  res (body s) = res (body' s) -> post (body s) = post (body' s) ->
  primary (events (body s)) = primary (events (body' s)) ->
  res (try_catch body h s) = res (try_catch body' h s) /\
  post (try_catch body h s) = post (try_catch body' h s) /\
  primary (events (try_catch body h s)) = primary (events (try_catch body' h s)).
Proof.
  intros Hr Hp He.
  rewrite !res_try, !post_try, !events_try, !primary_app, Hr, Hp, He.
  repeat split.
Qed.

(** The chains and the fallback do not look at the orientation object. *)
Lemma entry_chain_with_orientation ori c e :
  entry_chain c (with_orientation ori e) = entry_chain c e.
Proof. reflexivity. Qed.

Lemma entry_fallback_with_orientation ori e :
  entry_fallback (with_orientation ori e) = entry_fallback e.
Proof. reflexivity. Qed.

Lemma exit_chain_with_orientation ori e :
  exit_chain (with_orientation ori e) = exit_chain e.
Proof. reflexivity. Qed.

(** The primary part of [toggleFullscreen] does not depend on the
    orientation object. *)
Lemma toggleFullscreen_primary ori1 ori2 e s :
  primary (events (toggleFullscreen (with_orientation ori1 e) s)) =
  primary (events (toggleFullscreen (with_orientation ori2 e) s)).
Proof.
  destruct (containerRef e) as [c|] eqn:Hc.
  - destruct (isFullscreen s) eqn:Hfs.
    + rewrite !(toggleFullscreen_exiting _ c s) by assumption.
      rewrite !exit_chain_with_orientation.
      pose proof (chain_then_swallowed (exit_chain e)
                    (unlock_orientation (with_orientation ori1 e)) s
                    (unlock_orientation_swallowed ori1 e)) as (R1 & P1 & E1).
      pose proof (chain_then_swallowed (exit_chain e)
                    (unlock_orientation (with_orientation ori2 e)) s
                    (unlock_orientation_swallowed ori2 e)) as (R2 & P2 & E2).
      apply try_catch_primary; congruence.
    + rewrite !(toggleFullscreen_entering _ c s) by assumption.
      rewrite !entry_chain_with_orientation, !entry_fallback_with_orientation.
      pose proof (chain_then_swallowed (entry_chain c e)
                    (lock_orientation (with_orientation ori1 e)) s
                    (lock_orientation_swallowed ori1 e)) as (R1 & P1 & E1).
      pose proof (chain_then_swallowed (entry_chain c e)
                    (lock_orientation (with_orientation ori2 e)) s
                    (lock_orientation_swallowed ori2 e)) as (R2 & P2 & E2).
      apply try_catch_primary; congruence.
  - unfold toggleFullscreen. cbn [containerRef with_orientation].
    now rewrite Hc.
Qed.

(** C4. Whatever [window.screen.orientation] does when [lock] or [unlock] is
    called (return, throw synchronously, reject, or not exist),
    [toggleFullscreen] completes normally, leaves the state as it found it,
    and everything in its log other than the orientation side effect (the
    fullscreen calls made, the fallback taken, the failures printed for
    them) is the same. *)
Theorem orientation_failure_is_swallowed (e : Env) (s : State)
        (ori ori' : Orientation) :
  res (toggleFullscreen (with_orientation ori e) s) = Ok tt /\
  post (toggleFullscreen (with_orientation ori e) s) = s /\
  primary (events (toggleFullscreen (with_orientation ori e) s)) =
  primary (events (toggleFullscreen (with_orientation ori' e) s)).
Proof.
  split; [|split].
  - destruct (toggleFullscreen_never_throws (with_orientation ori e) s) as [[] H].
    exact H.
  - apply (toggleFullscreen_preserves (fun s => s)).
  - apply toggleFullscreen_primary.
Qed.

Example lock_rejection_is_only_a_warning :
  toggleFullscreen standard_env initial_state =
  mkRun (Ok tt) initial_state
        [Call M_requestFullscreen; Call lock_landscape;
         Console Warn "Orientation lock failed:"].
Proof. reflexivity. Qed.

(** *** Where the orientation lock is requested *)

Lemma no_lock_call_in (t : list event) :
  Forall not_lock_call t -> ~ In (Call lock_landscape) t.
Proof.
  intros H Hin. rewrite Forall_forall in H. exact (H _ Hin).
Qed.

Lemma entry_chain_no_lock c e : emits_only not_lock_call (entry_chain c e).
Proof. unfold entry_chain. frame. Qed.

Lemma entry_fallback_no_lock e : emits_only not_lock_call (entry_fallback e).
Proof. unfold entry_fallback, console_warn, console_error. frame. Qed.

Lemma api_calls_app (t u : list event) :
  api_calls (t ++ u) = api_calls t ++ api_calls u.
Proof.
  induction t as [|ev t IH]; [reflexivity|].
  destruct ev; cbn; now rewrite ?IH.
Qed.

(** The lock block: either the host exposes the lock, and it is called once
    and the block completes; or it does not, and nothing happens (the block
    throwing when there is no [window] at all). *)
Lemma lock_orientation_cases e s :
  (exposes e lock_landscape = true /\
   res (lock_orientation e s) = Ok tt /\
   exists tail, events (lock_orientation e s) = Call lock_landscape :: tail /\
                api_calls tail = []) \/
  (exposes e lock_landscape = false /\ events (lock_orientation e s) = []).
Proof.
  unfold lock_orientation, exposes, lock_landscape, screen_orientation,
    global_window.
  destruct (window e) as [[[[[[[o|] u]|]]|] a]|]; cbn.
  2-5: now right.
  left. split; [reflexivity|].
  destruct o; cbn; split; try reflexivity; eexists; split; reflexivity.
Qed.

Lemma entering_events e c s :
  events ((entry_chain c e ;; lock_orientation e) s) =
  events (entry_chain c e s) ++
  match res (entry_chain c e s) with
  | Ok _ => events (lock_orientation e (post (entry_chain c e s)))
  | Thrown _ => []
  end.
Proof. exact (events_bind (entry_chain c e) (fun _ => lock_orientation e) s). Qed.

(** C5 as the specification has it fails: a host with none of the five
    entry methods still gets the lock request. *)
Lemma lock_requested_without_entry_method :
  ~ (forall e s,
        exposes_none entry_methods e ->
        ~ In (Call lock_landscape) (events (toggleFullscreen e s))).
Proof.
  intros H. apply (H no_entry_env initial_state).
  - intros m [<-|[<-|[<-|[<-|[<-|[]]]]]]; reflexivity.
  - cbn. tauto.
Qed.

(** C5, amended.  On a mounted container and with [isFullscreen] false, the
    landscape lock is requested exactly when the entry chain completes
    without throwing or rejecting, be it because the method it found
    succeeded or because it found no method at all, and the host exposes
    [window.screen.orientation.lock].  When it is requested, it is requested
    once, after whatever the entry chain invoked, and it is the command's
    last browser call. *)
Theorem lock_follows_completed_entry_chain (e : Env) (c : Container) (s : State) :
  containerRef e = Some c -> isFullscreen s = false ->
  (In (Call lock_landscape) (events (toggleFullscreen e s)) <->
   res (entry_chain c e s) = Ok tt /\ exposes e lock_landscape = true) /\
  (In (Call lock_landscape) (events (toggleFullscreen e s)) ->
   api_calls (events (toggleFullscreen e s)) =
   api_calls (events (entry_chain c e s)) ++ [lock_landscape]).
Proof.
  intros Hc Hfs. rewrite (toggleFullscreen_entering e c s Hc Hfs).
  rewrite events_try, res_bind, post_bind, entering_events.
  pose proof (no_lock_call_in _ (entry_chain_no_lock c e s)) as Hchain.
  assert (Hfb : forall s', ~ In (Call lock_landscape) (events (entry_fallback e s')))
    by (intros s'; apply no_lock_call_in, entry_fallback_no_lock).
  destruct (res (entry_chain c e s)) as [[]|x] eqn:Hres.
  - destruct (lock_orientation_cases e (post (entry_chain c e s)))
      as [(Hex & Hok & tail & Hev & Htail)|(Hex & Hev)].
    + rewrite Hok, Hev, app_nil_r. split.
      * split; [auto|]. intros _. apply in_or_app. right. now left.
      * intros _. rewrite api_calls_app. cbn. now rewrite Htail.
    + rewrite Hev, app_nil_r.
      assert (Hno : ~ In (Call lock_landscape)
                      (events (entry_chain c e s) ++
                       match res (lock_orientation e (post (entry_chain c e s))) with
                       | Ok _ => []
                       | Thrown x =>
                         events (entry_fallback e
                                   (post (lock_orientation e (post (entry_chain c e s)))))
                       end)).
      { intros Hin. apply in_app_or in Hin. destruct Hin as [Hin|Hin]; [tauto|].
        destruct (res (lock_orientation e (post (entry_chain c e s))));
          [destruct Hin | exact (Hfb _ Hin)]. }
      split; [|tauto]. split; [tauto|]. intros [_ Hex']. congruence.
  - rewrite app_nil_r.
    assert (Hno : ~ In (Call lock_landscape)
                    (events (entry_chain c e s) ++
                     events (entry_fallback e (post (entry_chain c e s))))).
    { intros Hin. apply in_app_or in Hin. destruct Hin as [Hin|Hin]; [tauto|].
      exact (Hfb _ Hin). }
    split; [|tauto]. split; [tauto|]. intros [Hok _]. discriminate Hok.
Qed.

Lemma lock_follows_completed_entry_chain_witness :
  (containerRef no_entry_env =
   Some {| requestFullscreen := None; webkitRequestFullscreen := None;
           mozRequestFullScreen := None; msRequestFullscreen := None |} /\
   isFullscreen initial_state = false) /\
  api_calls (events (toggleFullscreen no_entry_env initial_state)) =
  [lock_landscape].
Proof.
  split; [split; reflexivity|].
  apply (lock_follows_completed_entry_chain no_entry_env _ initial_state
           eq_refl eq_refl).
  cbn. tauto.
Defined.

(** *** The listener registry *)

Lemma setIsFullscreen_keeps_registry b : preserves registry (setIsFullscreen b).
Proof. now intros s. Qed.

Lemma setIsPiPSupported_keeps_registry b : preserves registry (setIsPiPSupported b).
Proof. now intros s. Qed.

Lemma setIsAirPlaySupported_keeps_registry b :
  preserves registry (setIsAirPlaySupported b).
Proof. now intros s. Qed.

#[export] Hint Resolve setIsFullscreen_keeps_registry
  setIsPiPSupported_keeps_registry setIsAirPlaySupported_keeps_registry : frame.

Lemma probe_keeps_registry e : preserves registry (probe e).
Proof. unfold probe. frame. Qed.

Lemma togglePictureInPicture_keeps_registry e :
  preserves registry (togglePictureInPicture e).
Proof. unfold togglePictureInPicture, console_error. frame. Qed.

Lemma showAirPlayMenu_keeps_registry e : preserves registry (showAirPlayMenu e).
Proof. unfold showAirPlayMenu. frame. Qed.

Lemma handleFullscreenChange_keeps_registry e :
  preserves registry (handleFullscreenChange e).
Proof. unfold handleFullscreenChange, recheck_orientation. frame. Qed.

(** A callback run by the event loop: nothing escapes, the registry stays. *)
Lemma callback_run (m : M unit) (h : handler_id) (s : State) :
  preserves registry m ->
  res ((try_catch m (fun _ => skip) ;; ret h) s) = Ok h /\
  registry (post ((try_catch m (fun _ => skip) ;; ret h) s)) = registry s.
Proof.
  intros Hm. rewrite res_bind, post_bind, res_try, post_try.
  destruct (res (m s)) as [[]|x]; cbn; split; auto.
Qed.

Lemma fresh_not_registered type h (l : list (string * handler_id)) :
  Forall (fun x => snd x < h) l -> existsb (same_listener type h) l = false.
Proof.
  induction 1 as [|[t h'] l Hlt _ IH]; [reflexivity|].
  cbn [existsb]. rewrite IH, orb_false_r.
  unfold same_listener. cbn [fst snd] in *.
  replace (Nat.eqb h' h) with false; [apply andb_false_r|].
  symmetry. apply Nat.eqb_neq. lia.
Qed.

Lemma fresh_not_removed type h (l : list (string * handler_id)) :
  Forall (fun x => snd x < h) l ->
  filter (fun x => negb (same_listener type h x)) l = l.
Proof.
  induction 1 as [|[t h'] l Hlt _ IH]; [reflexivity|].
  cbn [filter]. rewrite IH.
  unfold same_listener. cbn [fst snd] in *.
  replace (Nat.eqb h' h) with false; [now rewrite andb_false_r|].
  symmetry. apply Nat.eqb_neq. lia.
Qed.

Lemma bind_run {A B} (m : M A) (k : A -> M B) s a s' t :
  m s = mkRun (Ok a) s' t -> (x <- m ;; k x) s = after t (k a s').
Proof. intros H. unfold bind. now rewrite H. Qed.

Lemma addEventListener_fresh type h s :
  existsb (same_listener type h) (listeners s) = false ->
  addEventListener type h s =
  mkRun (Ok tt) (with_listeners (listeners s ++ [(type, h)]) s)
        [AddEventListener type h].
Proof. intros H. unfold addEventListener. now rewrite H. Qed.

Ltac not_registered Hfresh :=
  cbn [listeners with_listeners with_next_handler];
  rewrite ?existsb_app, (fresh_not_registered _ _ _ Hfresh);
  reflexivity.

(** The effect's body on a document: a new handler, registered for the four
    event names on top of what was there. *)
Lemma subscribe_run e d s :
  document e = Some d -> fresh_handlers s ->
  res (subscribe e s) = Ok (next_handler s) /\
  listeners (post (subscribe e s)) = listeners s ++ registrations (next_handler s) /\
  next_handler (post (subscribe e s)) = S (next_handler s) /\
  events (subscribe e s) =
  map (fun type => AddEventListener type (next_handler s)) fullscreen_change_events.
Proof.
  intros Hd Hfresh. unfold subscribe.
  erewrite bind_run by reflexivity.
  erewrite bind_run by (unfold global_document; rewrite Hd; reflexivity).
  erewrite bind_run by (apply addEventListener_fresh; not_registered Hfresh).
  erewrite bind_run by (apply addEventListener_fresh; not_registered Hfresh).
  erewrite bind_run by (apply addEventListener_fresh; not_registered Hfresh).
  erewrite bind_run by (apply addEventListener_fresh; not_registered Hfresh).
  cbn [after ret res post events app listeners next_handler with_listeners
       with_next_handler].
  rewrite <- !app_assoc. repeat split.
Qed.

(** The cleanup on a document: the handler's four registrations go, the
    rest stays. *)
Lemma cleanup_run e d s base h :
  document e = Some d ->
  listeners s = base ++ registrations h -> Forall (fun l => snd l < h) base ->
  res (cleanup e h s) = Ok tt /\
  listeners (post (cleanup e h s)) = base /\
  next_handler (post (cleanup e h s)) = next_handler s /\
  events (cleanup e h s) =
  map (fun type => RemoveEventListener type h) fullscreen_change_events.
Proof.
  intros Hd Hl Hbase. unfold cleanup, global_document. rewrite Hd.
  unfold bind, removeEventListener, ret, after.
  cbn [res post events listeners next_handler with_listeners app].
  rewrite Hl, !filter_app, !(fresh_not_removed _ _ _ Hbase).
  unfold registrations, fullscreen_change_events, same_listener.
  repeat (cbn [map filter fst snd String.eqb Ascii.eqb Bool.eqb andb negb];
          rewrite ?Nat.eqb_refl).
  rewrite app_nil_r. repeat split.
Qed.

(** An action on a host with a document keeps the subscription in place,
    possibly under a new handler. *)
Lemma run_action_subscribed e d base h a s :
  document e = Some d -> subscribed base h s ->
  exists h', res (run_action e h a s) = Ok h' /\
             subscribed base h' (post (run_action e h a s)).
Proof.
  intros Hd Hsub.
  assert (Hcb : forall m, preserves registry m ->
                  exists h', res ((try_catch m (fun _ => skip) ;; ret h) s) = Ok h' /\
                    subscribed base h' (post ((try_catch m (fun _ => skip) ;; ret h) s))).
  { intros m Hm. destruct (callback_run m h s Hm) as [Hr Hp].
    exists h. split; [exact Hr|].
    unfold registry in Hp. injection Hp as Hl Hn.
    destruct Hsub as (Hl' & Hbase & Hlt).
    unfold subscribed. rewrite Hl, Hn. auto. }
  destruct a; cbn [run_action].
  - apply Hcb, toggleFullscreen_preserves.
  - apply Hcb, togglePictureInPicture_keeps_registry.
  - apply Hcb, showAirPlayMenu_keeps_registry.
  - apply Hcb, handleFullscreenChange_keeps_registry.
  - destruct Hsub as (Hl & Hbase & Hlt).
    destruct (cleanup_run e d s base h Hd Hl Hbase) as (Hr & Hl1 & Hn1 & _).
    rewrite res_bind, post_bind, Hr.
    assert (Hf : fresh_handlers (post (cleanup e h s))).
    { unfold fresh_handlers. rewrite Hl1, Hn1.
      eapply Forall_impl; [|exact Hbase]. cbn. intros. lia. }
    destruct (subscribe_run e d _ Hd Hf) as (Hr2 & Hl2 & Hn2 & _).
    exists (next_handler (post (cleanup e h s))). split; [exact Hr2|].
    unfold subscribed. rewrite Hl2, Hn2, Hl1, Hn1. repeat split.
    + eapply Forall_impl; [|exact Hbase]. cbn. intros. lia.
    + lia.
Qed.

Lemma run_actions_subscribed e d base acts : forall h s,
  document e = Some d -> subscribed base h s ->
  exists h', res (run_actions e h acts s) = Ok h' /\
             subscribed base h' (post (run_actions e h acts s)).
Proof.
  induction acts as [|a acts IH]; intros h s Hd Hsub.
  - exists h. now split.
  - cbn [run_actions]. rewrite res_bind, post_bind.
    destruct (run_action_subscribed e d base h a s Hd Hsub) as (h1 & Hr & Hs).
    rewrite Hr. now apply IH.
Qed.

Lemma probe_never_throws e : never_throws (probe e).
Proof.
  intros s. exists tt. unfold probe.
  now destruct (document e), (window e).
Qed.

Lemma post_try_skip (m : M unit) (s : State) :
  post (try_catch m (fun _ => skip) s) = post (m s) /\
  res (try_catch m (fun _ => skip) s) = Ok tt.
Proof.
  rewrite post_try, res_try. now destruct (res (m s)) as [[]|x].
Qed.

Lemma fresh_handlers_registry s s' :
  registry s' = registry s -> fresh_handlers s -> fresh_handlers s'.
Proof.
  unfold registry, fresh_handlers. intros H. injection H as -> ->. auto.
Qed.

(** One mount/unmount cycle gives the registry back as it found it. *)
Lemma mount_unmount_restores c s :
  fresh_handlers s ->
  res (mount_unmount c s) = Ok tt /\
  listeners (post (mount_unmount c s)) = listeners s /\
  fresh_handlers (post (mount_unmount c s)).
Proof.
  intros Hf. destruct c as [e acts]. unfold mount_unmount. cbn [fst snd].
  match goal with
  | |- context [try_catch ?m _ s] => destruct (post_try_skip m s) as [-> ->]
  end.
  split; [reflexivity|].
  rewrite post_bind. destruct (probe_never_throws e s) as [[] ->].
  pose proof (probe_keeps_registry e s) as Hreg.
  pose proof (fresh_handlers_registry _ _ Hreg Hf) as Hf1.
  unfold registry in Hreg. injection Hreg as Hl1 Hn1.
  set (s1 := post (probe e s)) in *.
  rewrite post_bind.
  destruct (document e) as [d|] eqn:Hd.
  - destruct (subscribe_run e d s1 Hd Hf1) as (Hr & Hl2 & Hn2 & _).
    rewrite Hr, post_bind.
    assert (Hsub : subscribed (listeners s1) (next_handler s1) (post (subscribe e s1))).
    { unfold subscribed. rewrite Hl2, Hn2. repeat split; [exact Hf1 | lia]. }
    destruct (run_actions_subscribed e d _ acts _ _ Hd Hsub) as (h' & Hr3 & Hs3).
    rewrite Hr3. destruct Hs3 as (Hl3 & Hbase & Hlt).
    destruct (cleanup_run e d _ _ h' Hd Hl3 Hbase) as (_ & Hl4 & Hn4 & _).
    split; [congruence|].
    unfold fresh_handlers. rewrite Hl4, Hn4.
    eapply Forall_impl; [|exact Hbase]. intros l Hl. cbv beta in *. lia.
  - unfold subscribe, global_document. rewrite Hd. cbn.
    split; [exact Hl1|].
    unfold fresh_handlers in *. cbn.
    eapply Forall_impl; [|exact Hf1]. cbn. intros. lia.
Qed.

Lemma cycles_restore cs : forall s,
  fresh_handlers s ->
  res (cycles cs s) = Ok tt /\
  listeners (post (cycles cs s)) = listeners s /\
  fresh_handlers (post (cycles cs s)).
Proof.
  induction cs as [|c cs IH]; intros s Hf.
  - now repeat split.
  - cbn [cycles]. rewrite res_bind, post_bind.
    destruct (mount_unmount_restores c s Hf) as (-> & Hl & Hf').
    destruct (IH _ Hf') as (Hr & Hl' & Hf'').
    repeat split; [exact Hr | congruence | exact Hf''].
Qed.

(** C8. On a document, the subscription effect registers one and the same
    handler for exactly [fullscreenchange], [webkitfullscreenchange],
    [mozfullscreenchange] and [MSFullscreenChange], and its cleanup removes
    exactly these four registrations.  So, whatever happens while the
    component is mounted and however often it is mounted and unmounted, the
    listener registry ends as it began: nothing of the hook's is left
    behind, and starting from an empty registry the registry is empty
    again. *)
Theorem subscription_is_symmetric :
  (forall e d s,
      document e = Some d -> fresh_handlers s ->
      res (subscribe e s) = Ok (next_handler s) /\
      events (subscribe e s) =
      map (fun type => AddEventListener type (next_handler s))
          fullscreen_change_events /\
      listeners (post (subscribe e s)) =
      listeners s ++ registrations (next_handler s) /\
      events (cleanup e (next_handler s) (post (subscribe e s))) =
      map (fun type => RemoveEventListener type (next_handler s))
          fullscreen_change_events /\
      listeners (post (cleanup e (next_handler s) (post (subscribe e s)))) =
      listeners s) /\
  (forall cs s,
      fresh_handlers s ->
      res (cycles cs s) = Ok tt /\
      listeners (post (cycles cs s)) = listeners s) /\
  (forall cs, listeners (post (cycles cs initial_state)) = []).
Proof.
  split; [|split].
  - intros e d s Hd Hf.
    destruct (subscribe_run e d s Hd Hf) as (Hr & Hl & Hn & He).
    destruct (cleanup_run e d (post (subscribe e s)) (listeners s)
                (next_handler s) Hd Hl Hf) as (_ & Hl' & _ & He').
    repeat split; assumption.
  - intros cs s Hf. destruct (cycles_restore cs s Hf) as (Hr & Hl & _).
    now split.
  - intros cs. apply (cycles_restore cs initial_state). constructor.
Qed.

Lemma subscription_is_symmetric_witness :
  fresh_handlers initial_state /\
  res (cycles three_cycles initial_state) = Ok tt /\
  listeners (post (cycles three_cycles initial_state)) = [].
Proof.
  split; [constructor|].
  destruct subscription_is_symmetric as (_ & H & _).
  apply (H three_cycles initial_state). constructor.
Defined.

Example three_cycles_log :
  events (cycles three_cycles initial_state) <> [] /\
  next_handler (post (cycles three_cycles initial_state)) = 6.
Proof. split; [discriminate | reflexivity]. Qed.

(** *** The position of the speed menu *)

Module DesktopSpeedMenuFacts.

Import PrimFloat.
Import DesktopSpeedMenu.
Local Open Scope float_scope.

(** C7. When the menu opens, by the trigger's click handler or by the
    effect, over a mounted trigger and a mounted boundary, [menuPosition]
    becomes top = trigger.bottom - boundary.top + 10 and
    left = trigger.right - boundary.left, in the arithmetic of JavaScript
    numbers; for a trigger with bottom 100 and right 50 in a boundary with
    top 20 and left 10 that is top 90, left 40.  The popover is rendered
    with that top and left and with the transform [translateX(-100%)], the
    CSS shift to the left by the popover's own width that puts its right
    edge where its left edge would have been, at the trigger's right
    edge. *)
Theorem menu_position_on_open (trigger boundary : DOMRect)
        (menuPosition : MenuPosition) :
  let closed := {| showSpeedMenu := false; containerRef := Some boundary |} in
  let opened := {| showSpeedMenu := true; containerRef := Some boundary |} in
  let position :=
      {| menu_top := bottom trigger - top boundary + 10;
         menu_left := right trigger - left boundary |} in
  handleToggle closed (Some trigger) menuPosition = (position, [onToggleSpeedMenu]) /\
  effect opened (Some trigger) menuPosition = position /\
  open_from_trigger (Some trigger) (Some boundary) menuPosition = position /\
  (forall t l b r,
      open_from_trigger
        (Some {| top := t; right := 50; bottom := 100; left := l |})
        (Some {| top := 20; right := r; bottom := b; left := 10 |})
        menuPosition = {| menu_top := 90; menu_left := 40 |}) /\
  MenuContent_style position =
  {| style_top := bottom trigger - top boundary + 10;
     style_left := right trigger - left boundary;
     transform := translateX_percent (-100)%Q |}.
Proof.
  cbv zeta.
  split; [reflexivity|]. split; [reflexivity|]. split; [reflexivity|].
  split; [intros t l b r; reflexivity | reflexivity].
Qed.

(** The arithmetic is the language's, roundings included: a trigger with
    bottom 100.1 and right 50.7 in a boundary with top 20.2 and left 10.3
    gets neither top 89.9 nor left 40.4 (the numbers are written as
    quotients, which are rounded as the decimal literals are). *)
Example menu_position_rounds (menuPosition : MenuPosition) :
  let position :=
      open_from_trigger
        (Some {| top := 0; right := 507 / 10; bottom := 1001 / 10; left := 0 |})
        (Some {| top := 202 / 10; right := 0; bottom := 0; left := 103 / 10 |})
        menuPosition in
  eqb (menu_top position) (899 / 10) = false /\
  ltb (menu_top position) (899 / 10) = true /\
  eqb (menu_left position) (404 / 10) = false /\
  ltb (404 / 10) (menu_left position) = true.
Proof. cbv zeta. repeat split. Qed.

(** The position is left alone while the menu stays closed, and when either
    element is not mounted. *)
Lemma menu_position_kept (p : Props) (buttonRef : option DOMRect)
      (menuPosition : MenuPosition) :
  (showSpeedMenu p = false -> effect p buttonRef menuPosition = menuPosition) /\
  (buttonRef = None \/ containerRef p = None ->
   effect p buttonRef menuPosition = menuPosition /\
   fst (handleToggle p buttonRef menuPosition) = menuPosition).
Proof.
  split.
  - intros H. unfold effect. now rewrite H.
  - intros [->|H]; unfold effect, handleToggle; cbn.
    + now destruct (showSpeedMenu p).
    + rewrite H. now destruct (showSpeedMenu p), buttonRef.
Qed.

End DesktopSpeedMenuFacts.

(** ** Further properties of the hook *)

(** Case analysis on whatever variable the goal is stuck on. *)
Ltac stuck_cases :=
  repeat (cbn;
          match goal with
          | |- context [match ?x with _ => _ end] => is_var x; destruct x
          | |- context [match ?f ?x with _ => _ end] => is_var x; destruct x
          end); cbn.

Lemma fullscreen_calls_app (t u : list event) :
  fullscreen_calls (t ++ u) = fullscreen_calls t ++ fullscreen_calls u.
Proof. unfold fullscreen_calls. now rewrite api_calls_app, filter_app. Qed.

(** The entry chain calls the first method the host exposes, and nothing
    else. *)
Lemma entry_chain_calls c e s :
  containerRef e = Some c ->
  api_calls (events (entry_chain c e s)) =
  match find (exposes e) entry_methods with
  | Some k => [k]
  | None => []
  end.
Proof.
  intros Hc. destruct e as [doc win cref vid]. cbn in Hc. subst cref.
  destruct c as [rf wrf mrf msf]. unfold entry_chain.
  stuck_cases; reflexivity.
Qed.

Lemma exit_chain_calls e s :
  api_calls (events (exit_chain e s)) =
  match find (exposes e) exit_methods with
  | Some k => [k]
  | None => []
  end.
Proof.
  destruct e as [doc win cref vid]. unfold exit_chain, global_document.
  destruct doc as [[pipE ef wef mcf mef fe wfe mfe msfe pe epip]|];
    [|reflexivity].
  stuck_cases; reflexivity.
Qed.

Lemma lock_orientation_calls e s :
  api_calls (events (lock_orientation e s)) =
  if exposes e lock_landscape then [lock_landscape] else [].
Proof.
  destruct e as [doc win cref vid]. unfold lock_orientation, global_window.
  destruct win as [[[[[[[l|] u]|]]|] a]|]; try destruct l; reflexivity.
Qed.

Lemma unlock_orientation_calls e s :
  api_calls (events (unlock_orientation e s)) =
  if exposes e M_orientation_unlock then [M_orientation_unlock] else [].
Proof.
  destruct e as [doc win cref vid]. unfold unlock_orientation, global_window.
  destruct win as [[[[[[l [u|]]|]]|] a]|]; try destruct u; reflexivity.
Qed.

Lemma entry_fallback_run e s :
  res (entry_fallback e s) = Ok tt /\
  api_calls (events (entry_fallback e s)) =
  if exposes e M_webkitEnterFullscreen then [M_webkitEnterFullscreen] else [].
Proof.
  destruct e as [doc win cref vid]. unfold entry_fallback.
  destruct vid as [[[o|] r p]|]; try destruct o; split; reflexivity.
Qed.

#[export] Hint Extern 1 (not_console _) => exact I : frame.

Lemma in_api_calls (m : method) (t : list event) :
  In (Call m) t <-> In m (api_calls t).
Proof.
  induction t as [|ev t IH]; [tauto|].
  destruct ev; cbn; rewrite <- ?IH; intuition congruence.
Qed.

Lemma find_in_chain e chain k :
  find (exposes e) chain = Some k -> In k chain /\ exposes e k = true.
Proof. apply find_some. Qed.

Lemma entry_methods_all_fullscreen k :
  In k entry_methods ->
  is_fullscreen_method k = true /\ is_entering_method k = true.
Proof. intros [<-|[<-|[<-|[<-|[<-|[]]]]]]; split; reflexivity. Qed.

Lemma exit_methods_all_fullscreen k :
  In k exit_methods ->
  is_fullscreen_method k = true /\ is_exiting_method k = true.
Proof. intros [<-|[<-|[<-|[<-|[]]]]]; split; reflexivity. Qed.

(** The browser calls of the entering branch, part by part: the chain, the
    lock unless the chain threw, the fallback if chain or lock block threw. *)
Lemma entering_api_calls e c s :
  containerRef e = Some c -> isFullscreen s = false ->
  api_calls (events (toggleFullscreen e s)) =
  api_calls (events (entry_chain c e s)) ++
  (if is_thrown (res (entry_chain c e s)) then []
   else if exposes e lock_landscape then [lock_landscape] else []) ++
  (if is_thrown (res ((entry_chain c e ;; lock_orientation e) s))
   then if exposes e M_webkitEnterFullscreen then [M_webkitEnterFullscreen] else []
   else []).
Proof.
  intros Hc Hfs. rewrite (toggleFullscreen_entering e c s Hc Hfs).
  rewrite events_try, entering_events, !api_calls_app, <- app_assoc.
  f_equal. f_equal.
  - destruct (res (entry_chain c e s)); [apply lock_orientation_calls | reflexivity].
  - destruct (res ((entry_chain c e ;; lock_orientation e) s)); [reflexivity|].
    apply entry_fallback_run.
Qed.

Lemma exiting_api_calls e c s :
  containerRef e = Some c -> isFullscreen s = true ->
  api_calls (events (toggleFullscreen e s)) =
  api_calls (events (exit_chain e s)) ++
  (if is_thrown (res (exit_chain e s)) then []
   else if exposes e M_orientation_unlock then [M_orientation_unlock] else []).
Proof.
  intros Hc Hfs. rewrite (toggleFullscreen_exiting e c s Hc Hfs).
  rewrite events_try.
  rewrite (events_bind (exit_chain e) (fun _ => unlock_orientation e) s).
  rewrite !api_calls_app, <- app_assoc. f_equal.
  replace (api_calls
             match res ((exit_chain e ;; unlock_orientation e) s) with
             | Ok _ => []
             | Thrown _ =>
               events (console_error "Failed to exit fullscreen:"
                         (post ((exit_chain e ;; unlock_orientation e) s)))
             end) with (@nil method)
    by (now destruct (res ((exit_chain e ;; unlock_orientation e) s))).
  rewrite app_nil_r.
  destruct (res (exit_chain e s)); [apply unlock_orientation_calls | reflexivity].
Qed.

(** The lock block throws only for want of a [window], and then it has
    called nothing. *)
Lemma lock_block_thrown e s :
  is_thrown (res (lock_orientation e s)) = true -> exposes e lock_landscape = false.
Proof.
  destruct (lock_orientation_cases e s) as [(_ & Hok & _)|(Hex & _)].
  - rewrite Hok. discriminate.
  - auto.
Qed.

Lemma entering_body_thrown e c s :
  is_thrown (res ((entry_chain c e ;; lock_orientation e) s)) =
  is_thrown (res (entry_chain c e s)) ||
  is_thrown (res (lock_orientation e (post (entry_chain c e s)))).
Proof.
  rewrite (res_bind (entry_chain c e) (fun _ => lock_orientation e) s).
  now destruct (res (entry_chain c e s)).
Qed.

Lemma fullscreen_calls_of_api (t : list event) :
  fullscreen_calls t = filter is_fullscreen_method (api_calls t).
Proof. reflexivity. Qed.

(** X1. Entering, on any host: the first fullscreen method invoked is the
    first one the host exposes, in the order [requestFullscreen],
    [webkitRequestFullscreen], [mozRequestFullScreen], [msRequestFullscreen],
    the media element's [webkitEnterFullscreen]; none is invoked when none is
    exposed; and the only fullscreen call that can follow is the media
    element's [webkitEnterFullscreen], once. *)
Theorem entry_first_exposed_wins (e : Env) (c : Container) (s : State) :
  containerRef e = Some c -> isFullscreen s = false ->
  hd_error (fullscreen_calls (events (toggleFullscreen e s))) =
  find (exposes e) entry_methods /\
  (tl (fullscreen_calls (events (toggleFullscreen e s))) = [] \/
   tl (fullscreen_calls (events (toggleFullscreen e s))) = [M_webkitEnterFullscreen]).
Proof.
  intros Hc Hfs. rewrite fullscreen_calls_of_api.
  rewrite (entering_api_calls e c s Hc Hfs), (entry_chain_calls c e s Hc).
  rewrite !filter_app.
  replace (filter is_fullscreen_method
             (if is_thrown (res (entry_chain c e s)) then []
              else if exposes e lock_landscape then [lock_landscape] else []))
    with (@nil method)
    by (destruct (is_thrown _), (exposes e lock_landscape); reflexivity).
  cbn [app].
  destruct (find (exposes e) entry_methods) as [k|] eqn:Hfind.
  - destruct (find_in_chain _ _ _ Hfind) as [Hin _].
    destruct (entry_methods_all_fullscreen k Hin) as [Hk _].
    cbn [filter]. rewrite Hk. cbn [app hd_error tl]. split; [reflexivity|].
    destruct (is_thrown _); [|now left].
    destruct (exposes e M_webkitEnterFullscreen); [now right | now left].
  - assert (Hno : exposes e M_webkitEnterFullscreen = false).
    { apply (find_none _ _ Hfind). cbn. tauto. }
    rewrite Hno. destruct (is_thrown _); split; auto.
Qed.

Lemma entry_first_exposed_wins_witness :
  (containerRef rich_env = Some rich_container /\
   isFullscreen initial_state = false) /\
  hd_error (fullscreen_calls (events (toggleFullscreen rich_env initial_state))) =
  Some M_requestFullscreen /\
  (tl (fullscreen_calls (events (toggleFullscreen rich_env initial_state))) = [] \/
   tl (fullscreen_calls (events (toggleFullscreen rich_env initial_state))) =
   [M_webkitEnterFullscreen]).
Proof.
  split; [split; reflexivity|].
  exact (entry_first_exposed_wins rich_env rich_container initial_state
           eq_refl eq_refl).
Defined.

(** X2. Exiting, on any host: the one fullscreen method invoked is the first
    the document exposes, in the order [exitFullscreen],
    [webkitExitFullscreen], [mozCancelFullScreen], [msExitFullscreen]; none is
    invoked when the document exposes none. *)
Theorem exit_first_exposed_wins (e : Env) (c : Container) (s : State) :
  containerRef e = Some c -> isFullscreen s = true ->
  fullscreen_calls (events (toggleFullscreen e s)) =
  match find (exposes e) exit_methods with
  | Some k => [k]
  | None => []
  end.
Proof.
  intros Hc Hfs. rewrite fullscreen_calls_of_api.
  rewrite (exiting_api_calls e c s Hc Hfs), (exit_chain_calls e s).
  rewrite filter_app.
  replace (filter is_fullscreen_method
             (if is_thrown (res (exit_chain e s)) then []
              else if exposes e M_orientation_unlock then [M_orientation_unlock]
                   else []))
    with (@nil method)
    by (destruct (is_thrown _), (exposes e M_orientation_unlock); reflexivity).
  rewrite app_nil_r.
  destruct (find (exposes e) exit_methods) as [k|] eqn:Hfind; [|reflexivity].
  destruct (find_in_chain _ _ _ Hfind) as [Hin _].
  destruct (exit_methods_all_fullscreen k Hin) as [Hk _].
  cbn [filter]. now rewrite Hk.
Qed.

Lemma exit_first_exposed_wins_witness :
  (containerRef rich_env = Some rich_container /\
   isFullscreen fullscreen_state = true) /\
  fullscreen_calls (events (toggleFullscreen rich_env fullscreen_state)) =
  [M_webkitExitFullscreen].
Proof.
  split; [split; reflexivity|].
  exact (exit_first_exposed_wins rich_env rich_container fullscreen_state
           eq_refl eq_refl).
Defined.

Lemma entry_chain_no_console c e : emits_only not_console (entry_chain c e).
Proof. unfold entry_chain. frame. Qed.

Lemma no_console_in (t : list event) l msg :
  Forall not_console t -> ~ In (Console l msg) t.
Proof. intros H Hin. rewrite Forall_forall in H. exact (H _ Hin). Qed.

(** The fallback's log: the warning, then the media element's call if it is
    there, then the error if that call throws. *)
Lemma entry_fallback_events e s :
  events (entry_fallback e s) =
  Console Warn "Fullscreen request failed, trying fallback:" ::
  match video_fullscreen_behaviour e with
  | Some Returns => [Call M_webkitEnterFullscreen]
  | Some Rejects => [Call M_webkitEnterFullscreen; Unhandled M_webkitEnterFullscreen]
  | Some Throws => [Call M_webkitEnterFullscreen;
                    Console Error "Final fullscreen fallback failed:"]
  | None => []
  end.
Proof.
  destruct e as [doc win cref vid]. unfold entry_fallback, video_fullscreen_behaviour.
  destruct vid as [[[o|] r p]|]; try destruct o; reflexivity.
Qed.

(** X3. Entering, when the entry chain throws or rejects: the command still
    completes normally; it prints the warning and goes on to the media
    element's [webkitEnterFullscreen] if the element is mounted and has it,
    and to nothing else (no orientation lock); and it prints the final error
    exactly when that last call throws. *)
Theorem failed_entry_falls_back (e : Env) (c : Container) (s : State) (x : exn) :
  containerRef e = Some c -> isFullscreen s = false ->
  res (entry_chain c e s) = Thrown x ->
  res (toggleFullscreen e s) = Ok tt /\
  api_calls (events (toggleFullscreen e s)) =
  api_calls (events (entry_chain c e s)) ++
  (if exposes e M_webkitEnterFullscreen then [M_webkitEnterFullscreen] else []) /\
  In (Console Warn "Fullscreen request failed, trying fallback:")
     (events (toggleFullscreen e s)) /\
  (In (Console Error "Final fullscreen fallback failed:")
      (events (toggleFullscreen e s)) <->
   video_fullscreen_behaviour e = Some Throws).
Proof.
  intros Hc Hfs Hx. split; [|split; [|split]].
  - destruct (toggleFullscreen_never_throws e s) as [[] H]. exact H.
  - rewrite (entering_api_calls e c s Hc Hfs), entering_body_thrown, Hx.
    reflexivity.
  - rewrite (toggleFullscreen_entering e c s Hc Hfs), events_try.
    rewrite (res_bind (entry_chain c e) (fun _ => lock_orientation e) s), Hx.
    apply in_or_app. right. rewrite entry_fallback_events. now left.
  - rewrite (toggleFullscreen_entering e c s Hc Hfs), events_try.
    rewrite (res_bind (entry_chain c e) (fun _ => lock_orientation e) s), Hx.
    rewrite entering_events, Hx, app_nil_r, entry_fallback_events.
    pose proof (no_console_in _ Error "Final fullscreen fallback failed:"
                  (entry_chain_no_console c e s)) as Hchain.
    rewrite in_app_iff.
    destruct (video_fullscreen_behaviour e) as [[]|]; cbn;
      intuition (try discriminate; try congruence).
Qed.

Lemma failed_entry_falls_back_witness :
  (containerRef refusing_env = Some refusing_container /\
   isFullscreen initial_state = false /\
   res (entry_chain refusing_container refusing_env initial_state) =
   Thrown (HostError M_requestFullscreen)) /\
  res (toggleFullscreen refusing_env initial_state) = Ok tt /\
  api_calls (events (toggleFullscreen refusing_env initial_state)) =
  [M_requestFullscreen; M_webkitEnterFullscreen].
Proof.
  split; [repeat split|].
  destruct (failed_entry_falls_back refusing_env refusing_container initial_state
              (HostError M_requestFullscreen) eq_refl eq_refl eq_refl)
    as (Hres & Hcalls & _).
  split; [exact Hres | exact Hcalls].
Defined.

Lemma exit_chain_not_unlock e s :
  ~ In M_orientation_unlock (api_calls (events (exit_chain e s))).
Proof.
  rewrite exit_chain_calls.
  destruct (find (exposes e) exit_methods) as [k|] eqn:Hfind; [|tauto].
  destruct (find_in_chain _ _ _ Hfind) as [Hin _].
  intros [->|[]]. cbn in Hin. intuition discriminate.
Qed.

Lemma exit_chain_no_console e : emits_only not_console (exit_chain e).
Proof. unfold exit_chain. frame. Qed.

Lemma unlock_orientation_no_error e :
  emits_only (fun ev => ev <> Console Error "Failed to exit fullscreen:")
             (unlock_orientation e).
Proof.
  intros s. destruct e as [doc win cref vid].
  unfold unlock_orientation, global_window.
  destruct win as [[[[[[l [u|]]|]]|] a]|]; try destruct u; cbn;
    repeat constructor; discriminate.
Qed.

(** X4. Exiting: the orientation unlock is requested exactly when the exit
    chain completes without throwing or rejecting (also when the document
    has no exit method at all) and the host exposes
    [window.screen.orientation.unlock]; when the exit chain throws or
    rejects, the command makes no further browser call and prints
    "Failed to exit fullscreen:" as an error; and it completes normally
    either way. *)
Theorem unlock_follows_completed_exit_chain (e : Env) (c : Container) (s : State) :
  containerRef e = Some c -> isFullscreen s = true ->
  res (toggleFullscreen e s) = Ok tt /\
  (In (Call M_orientation_unlock) (events (toggleFullscreen e s)) <->
   res (exit_chain e s) = Ok tt /\ exposes e M_orientation_unlock = true) /\
  (is_thrown (res (exit_chain e s)) = true ->
   api_calls (events (toggleFullscreen e s)) = api_calls (events (exit_chain e s)) /\
   In (Console Error "Failed to exit fullscreen:") (events (toggleFullscreen e s))).
Proof.
  intros Hc Hfs. split; [|split].
  - destruct (toggleFullscreen_never_throws e s) as [[] H]. exact H.
  - rewrite in_api_calls, (exiting_api_calls e c s Hc Hfs), in_app_iff.
    pose proof (exit_chain_not_unlock e s) as Hno.
    destruct (res (exit_chain e s)) as [[]|x]; cbn [is_thrown].
    + destruct (exposes e M_orientation_unlock); cbn; intuition congruence.
    + cbn. intuition congruence.
  - intros Hx. split.
    + rewrite (exiting_api_calls e c s Hc Hfs), Hx. apply app_nil_r.
    + rewrite (toggleFullscreen_exiting e c s Hc Hfs), events_try.
      rewrite (res_bind (exit_chain e) (fun _ => unlock_orientation e) s).
      destruct (res (exit_chain e s)); [discriminate Hx|].
      apply in_or_app. right. now left.
Qed.

Lemma unlock_follows_completed_exit_chain_witness :
  (containerRef stuck_env = Some standard_container /\
   isFullscreen fullscreen_state = true /\
   is_thrown (res (exit_chain stuck_env fullscreen_state)) = true) /\
  api_calls (events (toggleFullscreen stuck_env fullscreen_state)) =
  [M_exitFullscreen] /\
  In (Console Error "Failed to exit fullscreen:")
     (events (toggleFullscreen stuck_env fullscreen_state)).
Proof.
  split; [repeat split|].
  destruct (unlock_follows_completed_exit_chain stuck_env standard_container
              fullscreen_state eq_refl eq_refl) as (_ & _ & H).
  exact (H eq_refl).
Defined.

(** The direction of a toggle is the value of [isFullscreen] it reads. *)
Lemma toggleFullscreen_direction e s :
  Forall (fun m => (if isFullscreen s then is_exiting_method m
                    else is_entering_method m) = true)
         (api_calls (events (toggleFullscreen e s))).
Proof.
  destruct (containerRef e) as [c|] eqn:Hc.
  - destruct (isFullscreen s) eqn:Hfs.
    + rewrite (exiting_api_calls e c s Hc Hfs), exit_chain_calls.
      apply Forall_app. split.
      * destruct (find (exposes e) exit_methods) as [k|] eqn:Hfind;
          constructor; [|constructor].
        destruct (find_in_chain _ _ _ Hfind) as [Hin _].
        now apply exit_methods_all_fullscreen.
      * destruct (is_thrown _), (exposes e M_orientation_unlock);
          repeat constructor.
    + rewrite (entering_api_calls e c s Hc Hfs), (entry_chain_calls c e s Hc).
      repeat (apply Forall_app; split).
      * destruct (find (exposes e) entry_methods) as [k|] eqn:Hfind;
          constructor; [|constructor].
        destruct (find_in_chain _ _ _ Hfind) as [Hin _].
        now apply entry_methods_all_fullscreen.
      * destruct (is_thrown _), (exposes e lock_landscape); repeat constructor.
      * destruct (is_thrown _), (exposes e M_webkitEnterFullscreen);
          repeat constructor.
  - unfold toggleFullscreen. rewrite Hc. constructor.
Qed.

(** X5. A toggle never mixes directions: with [isFullscreen] false every
    browser call it makes is an entry method or the orientation lock, with
    [isFullscreen] true every call is an exit method of the document or the
    orientation unlock; it makes at most two calls; and it leaves the whole
    state (flags and listener registry) as it found it. *)
Theorem toggleFullscreen_one_direction (e : Env) (s : State) :
  Forall (fun m => (if isFullscreen s then is_exiting_method m
                    else is_entering_method m) = true)
         (api_calls (events (toggleFullscreen e s))) /\
  post (toggleFullscreen e s) = s /\
  List.length (api_calls (events (toggleFullscreen e s))) <= 2.
Proof.
  split; [apply toggleFullscreen_direction|].
  split; [apply (toggleFullscreen_preserves (fun s => s))|].
  destruct (containerRef e) as [c|] eqn:Hc.
  - destruct (isFullscreen s) eqn:Hfs.
    + rewrite (exiting_api_calls e c s Hc Hfs), exit_chain_calls, length_app.
      destruct (find (exposes e) exit_methods), (is_thrown _),
        (exposes e M_orientation_unlock); cbn; lia.
    + rewrite (entering_api_calls e c s Hc Hfs), (entry_chain_calls c e s Hc).
      rewrite entering_body_thrown, !length_app.
      destruct (is_thrown (res (entry_chain c e s))); cbn [orb].
      * destruct (find (exposes e) entry_methods),
          (exposes e M_webkitEnterFullscreen); cbn; lia.
      * destruct (is_thrown (res (lock_orientation e (post (entry_chain c e s)))))
          eqn:Hlock.
        -- rewrite (lock_block_thrown _ _ Hlock).
           destruct (find (exposes e) entry_methods),
             (exposes e M_webkitEnterFullscreen); cbn; lia.
        -- destruct (find (exposes e) entry_methods), (exposes e lock_landscape);
             cbn; lia.
  - unfold toggleFullscreen. rewrite Hc. cbn. lia.
Qed.

Lemma toggleFullscreen_is_rendered e s :
  toggleFullscreen e s = toggleFullscreen_rendered (isFullscreen s) e s.
Proof.
  unfold toggleFullscreen, toggleFullscreen_rendered.
  destruct (containerRef e); [|reflexivity].
  unfold bind at 1, read_isFullscreen. cbn [res post events].
  apply after_nil.
Qed.

(** The browser calls of the two branches, whatever the state they run in. *)
Lemma entering_branch_api_calls e c s :
  api_calls (events (try_catch (entry_chain c e ;; lock_orientation e)
                               (fun _ => entry_fallback e) s)) =
  api_calls (events (entry_chain c e s)) ++
  (if is_thrown (res (entry_chain c e s)) then []
   else if exposes e lock_landscape then [lock_landscape] else []) ++
  (if is_thrown (res ((entry_chain c e ;; lock_orientation e) s))
   then if exposes e M_webkitEnterFullscreen then [M_webkitEnterFullscreen] else []
   else []).
Proof.
  rewrite events_try, entering_events, !api_calls_app, <- app_assoc.
  f_equal. f_equal.
  - destruct (res (entry_chain c e s)); [apply lock_orientation_calls | reflexivity].
  - destruct (res ((entry_chain c e ;; lock_orientation e) s)); [reflexivity|].
    apply entry_fallback_run.
Qed.

Lemma exiting_branch_api_calls e s :
  api_calls (events (try_catch (exit_chain e ;; unlock_orientation e)
                               (fun _ => console_error "Failed to exit fullscreen:")
                               s)) =
  api_calls (events (exit_chain e s)) ++
  (if is_thrown (res (exit_chain e s)) then []
   else if exposes e M_orientation_unlock then [M_orientation_unlock] else []).
Proof.
  rewrite events_try.
  rewrite (events_bind (exit_chain e) (fun _ => unlock_orientation e) s).
  rewrite !api_calls_app, <- app_assoc. f_equal.
  replace (api_calls
             match res ((exit_chain e ;; unlock_orientation e) s) with
             | Ok _ => []
             | Thrown _ =>
               events (console_error "Failed to exit fullscreen:"
                         (post ((exit_chain e ;; unlock_orientation e) s)))
             end) with (@nil method)
    by (now destruct (res ((exit_chain e ;; unlock_orientation e) s))).
  rewrite app_nil_r.
  destruct (res (exit_chain e s)); [apply unlock_orientation_calls | reflexivity].
Qed.

(** The direction of a callback is the value it captured, in any state. *)
Lemma toggleFullscreen_rendered_direction (b : bool) (e : Env) (s : State) :
  Forall (fun m => (if b then is_exiting_method m else is_entering_method m) = true)
         (api_calls (events (toggleFullscreen_rendered b e s))).
Proof.
  unfold toggleFullscreen_rendered.
  destruct (containerRef e) as [c|] eqn:Hc; [|constructor].
  destruct b; cbn [negb].
  - rewrite exiting_branch_api_calls, exit_chain_calls.
    apply Forall_app. split.
    + destruct (find (exposes e) exit_methods) as [k|] eqn:Hfind;
        constructor; [|constructor].
      destruct (find_in_chain _ _ _ Hfind) as [Hin _].
      now apply exit_methods_all_fullscreen.
    + destruct (is_thrown _), (exposes e M_orientation_unlock);
        repeat constructor.
  - rewrite entering_branch_api_calls, (entry_chain_calls c e s Hc).
    repeat (apply Forall_app; split).
    + destruct (find (exposes e) entry_methods) as [k|] eqn:Hfind;
        constructor; [|constructor].
      destruct (find_in_chain _ _ _ Hfind) as [Hin _].
      now apply entry_methods_all_fullscreen.
    + destruct (is_thrown _), (exposes e lock_landscape); repeat constructor.
    + destruct (is_thrown _), (exposes e M_webkitEnterFullscreen);
        repeat constructor.
Qed.

(** X6. The direction of a toggle is fixed by the [isFullscreen] prop its
    callback captured when it was rendered, not by what has been written to
    the state since.  Around a fullscreen-change event: a callback rendered
    before the event, called after the handler's write, still goes the way
    of the old value; a callback rendered with the value the handler wrote
    goes the way the document was at the event (out of fullscreen if it had
    a fullscreen element, into fullscreen if it had none), whatever host it
    meets; and that second callback is [toggleFullscreen] in the state after
    the event. *)
Theorem toggle_follows_captured_prop (e e' : Env) (d : Document) (s : State) :
  document e = Some d ->
  let after_event := post (handleFullscreenChange e s) in
  Forall (fun m => (if isFullscreen s then is_exiting_method m
                    else is_entering_method m) = true)
         (api_calls (events (toggleFullscreen_rendered (isFullscreen s) e'
                                                       after_event))) /\
  Forall (fun m => (if isInFullscreen d then is_exiting_method m
                    else is_entering_method m) = true)
         (api_calls (events (toggleFullscreen_rendered (isFullscreen after_event) e'
                                                       after_event))) /\
  toggleFullscreen_rendered (isFullscreen after_event) e' after_event =
  toggleFullscreen e' after_event.
Proof.
  intros Hd after_event. split; [|split].
  - apply toggleFullscreen_rendered_direction.
  - destruct (handleFullscreenChange_writes e d s Hd) as [_ Hfs].
    fold after_event in Hfs. rewrite <- Hfs.
    apply toggleFullscreen_rendered_direction.
  - symmetry. apply toggleFullscreen_is_rendered.
Qed.

Lemma toggle_follows_captured_prop_witness :
  document stuck_env = Some stuck_document /\
  isFullscreen initial_state = false /\
  isInFullscreen stuck_document = true /\
  api_calls (events (toggleFullscreen_rendered
                       (isFullscreen initial_state) rich_env
                       (post (handleFullscreenChange stuck_env initial_state)))) =
  [M_requestFullscreen; lock_landscape] /\
  api_calls (events (toggleFullscreen rich_env
                       (post (handleFullscreenChange stuck_env initial_state)))) =
  [M_webkitExitFullscreen; M_orientation_unlock] /\
  Forall (fun m => is_entering_method m = true)
         (api_calls (events (toggleFullscreen_rendered
                               (isFullscreen initial_state) rich_env
                               (post (handleFullscreenChange stuck_env
                                        initial_state))))) /\
  Forall (fun m => is_exiting_method m = true)
         (api_calls (events (toggleFullscreen_rendered
                               (isFullscreen
                                  (post (handleFullscreenChange stuck_env
                                           initial_state)))
                               rich_env
                               (post (handleFullscreenChange stuck_env
                                        initial_state))))).
Proof.
  split; [reflexivity|]. split; [reflexivity|]. split; [reflexivity|].
  split; [reflexivity|]. split; [reflexivity|].
  destruct (toggle_follows_captured_prop stuck_env rich_env stuck_document
              initial_state eq_refl) as (Hold & Hnew & _).
  split; [exact Hold | exact Hnew].
Defined.

(** The browser calls of the handler, on a host with a [window]. *)
Lemma handler_api_calls e d w s :
  document e = Some d -> window e = Some w ->
  api_calls (events (handleFullscreenChange e s)) =
  (if isInFullscreen d
   then if exposes e lock_landscape then [lock_landscape] else []
   else if exposes e M_orientation_unlock then [M_orientation_unlock] else []).
Proof.
  intros Hd Hw. destruct e as [doc win cref vid]. cbn in Hd, Hw. subst doc win.
  unfold handleFullscreenChange, recheck_orientation, global_document,
    global_window, lock_landscape.
  cbn [document window exposes screen_orientation]. run_js.
  destruct (isInFullscreen d);
    destruct w as [[[[[[l|] [u|]]|]]|] a]; try destruct l; try destruct u;
    reflexivity.
Qed.



(** X8. [showAirPlayMenu] leaves the state alone and calls
    [webkitShowPlaybackTargetPicker] exactly when the media element is
    mounted, [isAirPlaySupported] is true and the element has the method;
    otherwise it calls nothing.  It has no guard of its own: it throws to its
    caller exactly when that call throws. *)
Theorem showAirPlayMenu_spec (e : Env) (s : State) :
  post (showAirPlayMenu e s) = s /\
  api_calls (events (showAirPlayMenu e s)) =
  (if isAirPlaySupported s && exposes e M_webkitShowPlaybackTargetPicker
   then [M_webkitShowPlaybackTargetPicker] else []) /\
  (res (showAirPlayMenu e s) = Ok tt <->
   ~ (isAirPlaySupported s = true /\ picker_behaviour e = Some Throws)).
Proof.
  destruct e as [doc win cref vid]. unfold showAirPlayMenu, picker_behaviour.
  cbn [videoRef exposes].
  destruct vid as [[wef rpip [o|]]|]; run_js;
    destruct (isAirPlaySupported s); try destruct o; cbn;
    repeat split; intuition (try discriminate; try congruence).
Qed.

(** X9. The subscription effect has no guard for a missing [document]
    (unlike the probe): without one, its body throws a ReferenceError before
    it registers anything, and so does its cleanup before it removes
    anything. *)
Theorem subscription_needs_document (e : Env) (s : State) (h : handler_id) :
  document e = None ->
  res (subscribe e s) = Thrown (ReferenceError "document") /\
  listeners (post (subscribe e s)) = listeners s /\
  events (subscribe e s) = [] /\
  res (cleanup e h s) = Thrown (ReferenceError "document") /\
  post (cleanup e h s) = s /\
  events (cleanup e h s) = [].
Proof.
  intros Hd. unfold subscribe, cleanup, global_document. rewrite Hd.
  repeat split.
Qed.

Lemma subscription_needs_document_witness :
  document server_env = None /\
  res (subscribe server_env initial_state) = Thrown (ReferenceError "document") /\
  listeners (post (subscribe server_env initial_state)) = [] /\
  res (probe server_env initial_state) = Ok tt.
Proof.
  split; [reflexivity|].
  destruct (subscription_needs_document server_env initial_state 0 eq_refl)
    as (Hres & Hl & _).
  split; [exact Hres|]. split; [exact Hl | reflexivity].
Defined.

(** X10. Running the probe again changes nothing: its second run leaves the
    state its first run produced.  And on a host with both globals the flags
    it leaves do not depend on what they were before. *)
Theorem probe_idempotent (e : Env) (s s' : State) :
  post (probe e (post (probe e s))) = post (probe e s) /\
  (document e <> None -> window e <> None ->
   isPiPSupported (post (probe e s)) = isPiPSupported (post (probe e s')) /\
   isAirPlaySupported (post (probe e s)) = isAirPlaySupported (post (probe e s'))).
Proof.
  unfold probe.
  destruct (document e) as [d|], (window e) as [w|]; cbn;
    (split; [reflexivity|]); intros H1 H2; try (now elim H1); try (now elim H2).
  split; reflexivity.
Qed.

Lemma probe_idempotent_witness :
  (document standard_env <> None /\ window standard_env <> None) /\
  post (probe standard_env (post (probe standard_env airplay_state))) =
  post (probe standard_env airplay_state) /\
  isAirPlaySupported (post (probe standard_env airplay_state)) =
  isAirPlaySupported (post (probe standard_env initial_state)).
Proof.
  split; [split; discriminate|].
  destruct (probe_idempotent standard_env airplay_state initial_state)
    as [Hidem Hflags].
  split; [exact Hidem|].
  apply Hflags; discriminate.
Defined.

(** X11. While the component is mounted on a host with a document, whatever
    commands, events and effect re-runs have happened, the document carries
    the registrations it had before the mount plus exactly the four of one
    handler, the current one, which is none of the handlers registered
    before. *)
Theorem mounted_registrations (e : Env) (d : Document) (s : State)
        (acts : list action) :
  document e = Some d -> fresh_handlers s ->
  exists h,
    res ((h0 <- subscribe e ;; run_actions e h0 acts) s) = Ok h /\
    listeners (post ((h0 <- subscribe e ;; run_actions e h0 acts) s)) =
    listeners s ++ registrations h /\
    Forall (fun l => snd l < h) (listeners s).
Proof.
  intros Hd Hf.
  destruct (subscribe_run e d s Hd Hf) as (Hr & Hl & Hn & _).
  assert (Hsub : subscribed (listeners s) (next_handler s) (post (subscribe e s))).
  { unfold subscribed. rewrite Hl, Hn. repeat split; [exact Hf | lia]. }
  rewrite res_bind, post_bind, Hr.
  destruct (run_actions_subscribed e d _ acts _ _ Hd Hsub)
    as (h & Hres & Hl' & Hbase & _).
  exists h. auto.
Qed.

Lemma mounted_registrations_witness :
  (document standard_env = Some standard_document /\
   fresh_handlers initial_state) /\
  exists h,
    res ((h0 <- subscribe standard_env ;;
          run_actions standard_env h0
                      [A_toggleFullscreen; A_resubscribe; A_fullscreenChange])
           initial_state) = Ok h /\
    listeners (post ((h0 <- subscribe standard_env ;;
                      run_actions standard_env h0
                                  [A_toggleFullscreen; A_resubscribe;
                                   A_fullscreenChange]) initial_state)) =
    listeners initial_state ++ registrations h /\
    Forall (fun l => snd l < h) (listeners initial_state).
Proof.
  split; [split; [reflexivity | constructor]|].
  apply (mounted_registrations standard_env standard_document initial_state
           [A_toggleFullscreen; A_resubscribe; A_fullscreenChange] eq_refl).
  constructor.
Defined.

Lemma entry_chain_has_no_lock c e s :
  containerRef e = Some c ->
  count_occ method_eq_dec (api_calls (events (entry_chain c e s))) lock_landscape = 0.
Proof.
  intros Hc. rewrite (entry_chain_calls c e s Hc).
  destruct (find (exposes e) entry_methods) as [k|] eqn:Hfind; [|reflexivity].
  destruct (find_in_chain _ _ _ Hfind) as [Hin _].
  cbn in Hin. destruct Hin as [<-|[<-|[<-|[<-|[<-|[]]]]]]; reflexivity.
Qed.

(** X17. The landscape lock is requested at two places: when an entry
    attempt completes on a host with the lock, and the document then reports
    a fullscreen element at the change event, the command and the handler
    each request it once, twice in all. *)
Theorem lock_requested_by_command_and_handler (e e' : Env) (c : Container)
        (d : Document) (s : State) :
  containerRef e = Some c -> isFullscreen s = false ->
  res (entry_chain c e s) = Ok tt -> exposes e lock_landscape = true ->
  document e' = Some d -> isInFullscreen d = true ->
  exposes e' lock_landscape = true ->
  count_occ method_eq_dec (api_calls (events (toggleFullscreen e s)))
            lock_landscape = 1 /\
  count_occ method_eq_dec
            (api_calls (events (handleFullscreenChange e' (post (toggleFullscreen e s)))))
            lock_landscape = 1 /\
  count_occ method_eq_dec
            (api_calls (events ((toggleFullscreen e ;; handleFullscreenChange e') s)))
            lock_landscape = 2.
Proof.
  intros Hc Hfs Hok Hlock Hd Hin Hlock'.
  assert (H1 : count_occ method_eq_dec (api_calls (events (toggleFullscreen e s)))
                         lock_landscape = 1).
  { rewrite (entering_api_calls e c s Hc Hfs), entering_body_thrown, Hok, Hlock.
    cbn [is_thrown orb].
    destruct (lock_orientation_cases e (post (entry_chain c e s)))
      as [(_ & Hres & _)|(Hex & _)]; [|congruence].
    rewrite Hres. cbn [is_thrown]. rewrite app_nil_r, count_occ_app.
    rewrite (entry_chain_has_no_lock c e s Hc). reflexivity. }
  assert (H2 : forall s', count_occ method_eq_dec
                            (api_calls (events (handleFullscreenChange e' s')))
                            lock_landscape = 1).
  { intros s'. destruct (window e') as [w|] eqn:Hw.
    - rewrite (handler_api_calls e' d w s' Hd Hw), Hin, Hlock'. reflexivity.
    - unfold exposes, lock_landscape, screen_orientation in Hlock'.
      rewrite Hw in Hlock'. discriminate. }
  split; [exact H1|]. split; [apply H2|].
  rewrite (events_bind (toggleFullscreen e) (fun _ => handleFullscreenChange e') s).
  destruct (toggleFullscreen_never_throws e s) as [[] ->].
  rewrite api_calls_app, count_occ_app, H1, H2. reflexivity.
Qed.

Lemma lock_requested_by_command_and_handler_witness :
  (containerRef standard_env = Some standard_container /\
   isFullscreen initial_state = false /\
   res (entry_chain standard_container standard_env initial_state) = Ok tt /\
   exposes standard_env lock_landscape = true /\
   document webkit_fullscreen_env = Some webkit_fullscreen_document /\
   isInFullscreen webkit_fullscreen_document = true /\
   exposes webkit_fullscreen_env lock_landscape = true) /\
  count_occ method_eq_dec
            (api_calls (events ((toggleFullscreen standard_env ;;
                                 handleFullscreenChange webkit_fullscreen_env)
                                  initial_state)))
            lock_landscape = 2.
Proof.
  split; [repeat split|].
  apply (lock_requested_by_command_and_handler standard_env webkit_fullscreen_env
           standard_container webkit_fullscreen_document initial_state);
    reflexivity.
Defined.

(** ** Further properties of the speed menu *)

Module DesktopSpeedMenuRendering.

Import PrimFloat.
Import DesktopSpeedMenu.
Local Open Scope Q_scope.

(** X13. The trigger's click handler always tells the parent to toggle,
    exactly once.  It moves the menu only on an opening click with both
    elements mounted: a closing click, an unmounted trigger or an unmounted
    boundary leaves [menuPosition] as it was.  The effect likewise leaves it
    while the menu is closed or either element is unmounted. *)
Theorem position_only_moves_on_open (p : Props) (buttonRef : option DOMRect)
        (menuPosition : MenuPosition) :
  snd (handleToggle p buttonRef menuPosition) = [onToggleSpeedMenu] /\
  (showSpeedMenu p = true \/ buttonRef = None \/ containerRef p = None ->
   fst (handleToggle p buttonRef menuPosition) = menuPosition) /\
  (showSpeedMenu p = false \/ buttonRef = None \/ containerRef p = None ->
   effect p buttonRef menuPosition = menuPosition).
Proof.
  unfold handleToggle, effect. cbn [fst snd].
  split; [reflexivity|]. split.
  - intros [-> | [-> | ->]]; [reflexivity | now destruct (showSpeedMenu p) |].
    now destruct (showSpeedMenu p), buttonRef.
  - intros [-> | [-> | ->]]; [reflexivity | now destruct (showSpeedMenu p) |].
    now destruct (showSpeedMenu p), buttonRef.
Qed.

Lemma position_only_moves_on_open_witness :
  let p := {| showSpeedMenu := true;
              containerRef := Some {| top := 20; right := 800; bottom := 500;
                                      left := 10 |}%float |} in
  let trigger :=
      Some {| top := 60; right := 50; bottom := 100; left := 2 |}%float in
  let at_90_40 := {| menu_top := 90; menu_left := 40 |}%float in
  showSpeedMenu p = true /\
  handleToggle p trigger at_90_40 = (at_90_40, [onToggleSpeedMenu]).
Proof.
  cbv zeta. split; [reflexivity|].
  match goal with
  | |- handleToggle ?p ?b ?pos = _ =>
    destruct (position_only_moves_on_open p b pos) as (Hsnd & Hfst & _);
      rewrite (surjective_pairing (handleToggle p b pos)), Hsnd,
        (Hfst (or_introl eq_refl))
  end.
  reflexivity.
Defined.

(** X14. The menu shows one option per speed, in the order of [speeds] and
    keyed by the speed.  Clicking an option tells the parent one thing: the
    new speed, which is that option's own; it does not toggle the menu.  An
    option is highlighted exactly when its speed is the playback rate. *)
Theorem options_follow_speeds (playbackRate : Q) (speeds : list Q) :
  map key (MenuContent_options playbackRate speeds) = speeds /\
  forall i b,
    nth_error (MenuContent_options playbackRate speeds) i = Some b ->
    nth_error speeds i = Some (key b) /\
    onClick b = [N_onSpeedChange (key b)] /\
    (highlighted b = true <-> playbackRate == key b).
Proof.
  unfold MenuContent_options. split.
  - rewrite map_map. cbn. apply map_id.
  - intros i b Hb. rewrite nth_error_map in Hb.
    destruct (nth_error speeds i) as [speed|]; [|discriminate Hb].
    cbn in Hb. injection Hb as <-. cbn.
    repeat split; apply Qeq_bool_iff.
Qed.

Lemma options_follow_speeds_witness :
  nth_error (MenuContent_options 1 [1 # 2; 1; 2]) 2 =
  Some (option_button 1 2) /\
  onClick (option_button 1 2) = [N_onSpeedChange 2] /\
  (highlighted (option_button 1 2) = true <-> 1 == 2).
Proof.
  split; [reflexivity|].
  destruct (options_follow_speeds 1 [1 # 2; 1; 2]) as [_ H].
  destruct (H 2%nat (option_button 1 2) eq_refl) as (_ & Hclick & Hhl).
  split; [exact Hclick | exact Hhl].
Defined.

Lemma highlighted_cons (playbackRate speed : Q) (speeds : list Q) :
  filter highlighted (MenuContent_options playbackRate (speed :: speeds)) =
  if Qeq_bool playbackRate speed
  then option_button playbackRate speed ::
       filter highlighted (MenuContent_options playbackRate speeds)
  else filter highlighted (MenuContent_options playbackRate speeds).
Proof. reflexivity. Qed.

Lemma no_option_highlighted (playbackRate : Q) (speeds : list Q) :
  ~ InA Qeq playbackRate speeds ->
  filter highlighted (MenuContent_options playbackRate speeds) = [].
Proof.
  induction speeds as [|speed speeds IH]; intros Hnot; [reflexivity|].
  rewrite highlighted_cons. destruct (Qeq_bool playbackRate speed) eqn:Heq.
  - exfalso. apply Hnot. left. now apply Qeq_bool_iff.
  - apply IH. intros Hin. apply Hnot. now right.
Qed.

(** X15. With pairwise different speeds, exactly one option is highlighted
    when the playback rate is one of them, and none when it is not. *)
Theorem one_option_highlighted (playbackRate : Q) (speeds : list Q) :
  NoDupA Qeq speeds ->
  (InA Qeq playbackRate speeds ->
   List.length (filter highlighted (MenuContent_options playbackRate speeds)) = 1%nat) /\
  (~ InA Qeq playbackRate speeds ->
   filter highlighted (MenuContent_options playbackRate speeds) = []).
Proof.
  intros Hnodup. split; [|apply no_option_highlighted].
  induction Hnodup as [|speed speeds Hfresh Hnodup IH]; intros Hin.
  - inversion Hin.
  - rewrite highlighted_cons. destruct (Qeq_bool playbackRate speed) eqn:Heq.
    + apply Qeq_bool_iff in Heq.
      rewrite no_option_highlighted; [reflexivity|].
      intros Hin'. apply Hfresh. now rewrite <- Heq.
    + apply IH. inversion Hin as [? ? Hhd|? ? Htl]; subst; [|exact Htl].
      apply Qeq_bool_iff in Hhd. congruence.
Qed.

Lemma one_option_highlighted_witness :
  (NoDupA Qeq [1 # 2; 1; 3 # 2; 2] /\ InA Qeq (2 # 2) [1 # 2; 1; 3 # 2; 2]) /\
  List.length (filter highlighted (MenuContent_options (2 # 2) [1 # 2; 1; 3 # 2; 2]))
  = 1%nat.
Proof.
  assert (Hnodup : NoDupA Qeq [1 # 2; 1; 3 # 2; 2]).
  { repeat constructor; intros H;
      repeat match goal with
             | H : InA _ _ _ |- _ => inversion H; subst; clear H
             end; discriminate. }
  assert (Hin : InA Qeq (2 # 2) [1 # 2; 1; 3 # 2; 2]).
  { right. left. reflexivity. }
  split; [split; assumption|].
  apply (one_option_highlighted (2 # 2) [1 # 2; 1; 3 # 2; 2] Hnodup). exact Hin.
Defined.

(** X16. When the boundary is not mounted, the open menu is rendered into
    [document.body] instead of the boundary, and no position is computed for
    it: opening leaves [menuPosition] as it was, so that on the first opening
    the popover is styled with top 0, left 0 and the same
    [translateX(-100%)]. *)
Theorem portal_fallback_keeps_position (buttonRef : option DOMRect)
        (boundary : DOMRect) (menuPosition : MenuPosition) :
  portal {| showSpeedMenu := true; containerRef := Some boundary |} true =
  Some into_container /\
  portal {| showSpeedMenu := true; containerRef := None |} true = Some into_body /\
  open_from_trigger buttonRef None menuPosition = menuPosition /\
  MenuContent_style (open_from_trigger buttonRef None initial_menuPosition) =
  {| style_top := 0%float; style_left := 0%float;
     transform := translateX_percent (-100) |}.
Proof.
  split; [reflexivity|]. split; [reflexivity|].
  unfold open_from_trigger, effect, handleToggle. cbn.
  split; now destruct buttonRef.
Qed.

End DesktopSpeedMenuRendering.
